(** * anonP2P: a shallow embedding of the overlay core

    The development follows the JavaScript sources class by class:
    - [Js]        the fragment of the JavaScript runtime the code relies on
                  (values, truthiness, Buffer hex/base64 codecs, slice, sort);
    - [Identity]  core/AnonymousIdentity.js (ephemeral signing keys);
    - [Kademlia]  core/KademliaNode.js (routing table, storage, UDP handler);
    - [Onion]     core/OnionRouter.js (layered envelopes, circuits);
    - [P2P]       network/AnonymousP2PNode.js (dispatch, anonymous send);
    - [ZK]        core/AnonymousIdentity.js (challenge proofs);
    - [Overlay]   network/AnonymousP2PNode.js (peer set, message queue);
    - [Runs]      sequences of received datagrams.
    [Spec] holds the notions the properties are stated with, [Sample] and
    [Sample2] the concrete nodes and environments the properties are run
    on, and the [...Facts] modules the proofs.

    Time ([Date.now()]) is an integer number of milliseconds, passed in by the
    caller.  Randomness and the network are read from explicit environments.
    Strings are byte strings (UTF-8), so [Buffer.from(s)] is the identity. *)

From Stdlib Require Import ZArith List String Ascii Bool Lia DecimalString.
From Stdlib Require Import Sorting.Sorted Sorting.Permutation.
From stdpp Require Import base option list gmap strings.

Local Open Scope Z_scope.

(* ================================================================== *)
(** * The JavaScript runtime fragment *)
(* ================================================================== *)

Module Js.

(** Errors raised by [throw]; the payload is the message. *)
Inductive JsError : Type :=
| TypeError (msg : string)
| Error (msg : string).

(** A computation either completes normally or throws. *)
Inductive Completion (A : Type) : Type :=
| Normal (a : A)
| Throw (e : JsError).
Arguments Normal {A} a.
Arguments Throw {A} e.

Definition bind {A B : Type} (c : Completion A) (f : A -> Completion B)
  : Completion B :=
  match c with
  | Normal a => f a
  | Throw e => Throw e
  end.

(** JSON-shaped values: what [JSON.parse] produces and what the code stores.
    Numbers are restricted to integers. *)
#[warnings="-register-all"]
Inductive JsValue : Type :=
| JUndefined
| JNull
| JBool (b : bool)
| JNum (z : Z)
| JStr (s : string)
| JArr (items : list JsValue)
| JObj (fields : list (string * JsValue)).

(** [ToBoolean]: the test performed by [if (v)] and [a && b]. *)
Definition truthy (v : JsValue) : bool :=
  match v with
  | JUndefined | JNull => false
  | JBool b => b
  | JNum z => negb (z =? 0)
  | JStr s => negb (String.eqb s EmptyString)
  | JArr _ | JObj _ => true
  end.

Fixpoint assoc (key : string) (fields : list (string * JsValue))
  : option JsValue :=
  match fields with
  | [] => None
  | (k, v) :: rest => if String.eqb k key then Some v else assoc key rest
  end.

(** Property read [v.key].  Reading a property of [undefined] or [null]
    throws; a missing property (and any named property of a primitive or of
    an array, for the names used here) reads as [undefined]. *)
Definition getProp (v : JsValue) (key : string) : Completion JsValue :=
  match v with
  | JUndefined | JNull =>
      Throw (TypeError "Cannot read properties of undefined")
  | JObj fields => Normal (default JUndefined (assoc key fields))
  | _ => Normal JUndefined
  end.

(** ** Buffers and the hex codec *)

(** Value of one hex digit, either case, as [Buffer.from(s, 'hex')] reads it. *)
Definition hexDigit (c : ascii) : option Z :=
  let n := Z.of_N (N_of_ascii c) in
  if (48 <=? n) && (n <=? 57) then Some (n - 48)
  else if (97 <=? n) && (n <=? 102) then Some (n - 87)
  else if (65 <=? n) && (n <=? 70) then Some (n - 55)
  else None.

(** Lowercase digit, as [buf.toString('hex')] writes it. *)
Definition hexChar (d : Z) : ascii :=
  if d <? 10 then ascii_of_N (Z.to_N (48 + d))
  else ascii_of_N (Z.to_N (87 + d)).

(** [Buffer.from(s, 'hex')]: pairs of digits are decoded until the first
    pair that is not two hex digits; a trailing single digit is dropped. *)
Fixpoint Buffer_from_hex (s : string) : list Z :=
  match s with
  | String a (String b rest) =>
      match hexDigit a, hexDigit b with
      | Some x, Some y => (16 * x + y) :: Buffer_from_hex rest
      | _, _ => []
      end
  | _ => []
  end.

(** [buf.toString('hex')]. *)
Fixpoint Buffer_toString_hex (buf : list Z) : string :=
  match buf with
  | [] => EmptyString
  | b :: rest =>
      String (hexChar (b / 16))
        (String (hexChar (b mod 16)) (Buffer_toString_hex rest))
  end.

(** Every element is a byte. *)
Definition bytes (buf : list Z) : Prop := Forall (fun b => 0 <= b < 256) buf.

(** ** The base64 encoder and [JSON.stringify] *)

Definition code (c : ascii) : Z := Z.of_N (N_of_ascii c).

Definition base64Alphabet : string :=
  "ABCDEFGHIJKLMNOPQRSTUVWXYZabcdefghijklmnopqrstuvwxyz0123456789+/".

Definition base64Char (i : Z) : ascii :=
  default "="%char (String.get (Z.to_nat i) base64Alphabet).

(** [buf.toString('base64')] for a buffer given as a byte string: three
    bytes become four characters, the tail is padded with [=]. *)
Fixpoint Buffer_toString_base64 (buf : string) : string :=
  match buf with
  | EmptyString => EmptyString
  | String a EmptyString =>
      String (base64Char (code a / 4))
        (String (base64Char (code a mod 4 * 16)) "==")
  | String a (String b EmptyString) =>
      String (base64Char (code a / 4))
        (String (base64Char (code a mod 4 * 16 + code b / 16))
           (String (base64Char (code b mod 16 * 4)) "="))
  | String a (String b (String c rest)) =>
      String (base64Char (code a / 4))
        (String (base64Char (code a mod 4 * 16 + code b / 16))
           (String (base64Char (code b mod 16 * 4 + code c / 64))
              (String (base64Char (code c mod 64))
                 (Buffer_toString_base64 rest))))
  end.

(** The escape [JSON.stringify] writes for one character of a string. *)
Definition escapeChar (c : ascii) : string :=
  let n := code c in
  if n =? 34 then "\" +:+ String c EmptyString
  else if n =? 92 then "\\"
  else if n =? 8 then "\b"
  else if n =? 9 then "\t"
  else if n =? 10 then "\n"
  else if n =? 12 then "\f"
  else if n =? 13 then "\r"
  else if n <? 32 then
    "\u00" +:+ String (hexChar (n / 16)) (String (hexChar (n mod 16)) EmptyString)
  else String c EmptyString.

Fixpoint escape (s : string) : string :=
  match s with
  | EmptyString => EmptyString
  | String c rest => escapeChar c +:+ escape rest
  end.

Definition quote (s : string) : string :=
  String (ascii_of_N 34) (escape s +:+ String (ascii_of_N 34) EmptyString).

(** Decimal rendering of an integer number, as [JSON.stringify] writes a
    number of magnitude below 10^21: the timestamps, ports and counters of
    the program.  (From 10^21 on JavaScript writes an exponent; such
    numbers are outside the fragment.) *)
Definition decimal (z : Z) : string :=
  DecimalString.NilZero.string_of_int (Z.to_int z).

Fixpoint join (sep : string) (parts : list string) : string :=
  match parts with
  | [] => EmptyString
  | [x] => x
  | x :: rest => x +:+ sep +:+ join sep rest
  end.

(** [JSON.stringify(v)]; [None] is the result [undefined].  An [undefined]
    array element is written [null], an [undefined] field is left out. *)
Fixpoint stringify (v : JsValue) : option string :=
  match v with
  | JUndefined => None
  | JNull => Some "null"
  | JBool b => Some (if b then "true" else "false")
  | JNum z => Some (decimal z)
  | JStr s => Some (quote s)
  | JArr items =>
      Some ("[" +:+ join "," (map (fun i => default "null" (stringify i)) items)
              +:+ "]")
  | JObj fields =>
      let members :=
        (fix go (fs : list (string * JsValue)) : list string :=
           match fs with
           | [] => []
           | (name, x) :: rest =>
               match stringify x with
               | Some sx => (quote name +:+ ":" +:+ sx) :: go rest
               | None => go rest
               end
           end) fields in
      Some ("{" +:+ join "," members +:+ "}")
  end.

(** ** Arrays *)

(** [arr.findIndex(p)], with [None] for the result -1. *)
Fixpoint findIndex {A : Type} (p : A -> bool) (arr : list A) : option nat :=
  match arr with
  | [] => None
  | x :: rest => if p x then Some 0%nat else S <$> findIndex p rest
  end.

(** [arr.pop()]: the array without its last element. *)
Definition pop {A : Type} (arr : list A) : list A := removelast arr.

(** [arr.slice(0, count)]: a negative [count] is taken from the end. *)
Definition slice0 {A : Type} (arr : list A) (count : Z) : list A :=
  if count <? 0 then firstn (Z.to_nat (Z.of_nat (length arr) + count)) arr
  else firstn (Z.to_nat count) arr.

(** [a.localeCompare(b)] on the strings the program compares: outputs of
    [toString('hex')], over the alphabet 0-9a-f.  The collation places digits
    before letters and orders each group ascending, which on this alphabet is
    the order of the character codes; a proper prefix sorts first. *)
Fixpoint localeCompare (a b : string) : comparison :=
  match a, b with
  | EmptyString, EmptyString => Eq
  | EmptyString, String _ _ => Lt
  | String _ _, EmptyString => Gt
  | String x a', String y b' =>
      match N.compare (N_of_ascii x) (N_of_ascii y) with
      | Eq => localeCompare a' b'
      | c => c
      end
  end.

(** [arr.sort(cmp)].  The language requires the sort to be stable, and a
    stable sort by a consistent comparator has exactly one result, so the
    algorithm behind it does not matter; insertion from the right is used.
    [cmp x y = Gt] is the comparator returning a positive number. *)
Fixpoint insert {A : Type} (cmp : A -> A -> comparison) (x : A)
  (sorted : list A) : list A :=
  match sorted with
  | [] => [x]
  | y :: rest =>
      match cmp x y with
      | Gt => y :: insert cmp x rest
      | _ => x :: sorted
      end
  end.

Definition sort {A : Type} (cmp : A -> A -> comparison) (arr : list A)
  : list A :=
  fold_right (insert cmp) [] arr.

End Js.

(* ================================================================== *)
(** * core/KademliaNode.js *)
(* ================================================================== *)

Module Kademlia.
Import Js.

(** A routing-table entry [{ id, address, lastSeen }]. *)
Record Contact : Type := mkContact {
  id : string;
  address : string;
  lastSeen : Z
}.

(** A stored value [{ value, timestamp, ttl }]. *)
Record StorageEntry : Type := mkEntry {
  value : JsValue;
  timestamp : Z;
  ttl : Z
}.

(** The fields of a [KademliaNode] instance (the socket is modelled by the
    datagrams the methods hand to it). *)
Record KademliaNode : Type := mkNode {
  nodeId : string;
  port : Z;
  buckets : list (list Contact);
  storage : gmap string StorageEntry;
  alpha : nat;
  k : nat
}.

(** [new KademliaNode(nodeId, port)].  A missing or empty [nodeId] is falsy
    and is replaced by [drawn], the hex text of 20 random bytes. *)
Definition new (nodeId : string) (port : Z) (drawn : string) : KademliaNode :=
  {| nodeId := match nodeId with
               | EmptyString => drawn
               | _ => nodeId
               end;
     port := port;
     buckets := replicate 160 [];
     storage := ∅;
     alpha := 3;
     k := 20 |}.

Definition set_buckets (n : KademliaNode) (bs : list (list Contact))
  : KademliaNode :=
  {| nodeId := nodeId n; port := port n; buckets := bs;
     storage := storage n; alpha := alpha n; k := k n |}.

Definition set_storage (n : KademliaNode) (st : gmap string StorageEntry)
  : KademliaNode :=
  {| nodeId := nodeId n; port := port n; buckets := buckets n;
     storage := st; alpha := alpha n; k := k n |}.

(** [result[i] = bufA[i] ^ bufB[i]] for [i < bufA.length]; an index past the
    end of [bufB] reads [undefined], which [^] treats as 0. *)
Definition xorBuffers (bufA bufB : list Z) : list Z :=
  map (fun i => Z.lxor (nth i bufA 0) (nth i bufB 0))
      (seq 0 (length bufA)).

Definition xorDistance (a b : string) : string :=
  let bufA := Buffer_from_hex a in
  let bufB := Buffer_from_hex b in
  Buffer_toString_hex (xorBuffers bufA bufB).

(** The inner loop of [getBucketIndex]: the first [j] in 0..7 with
    [byte & (1 << (7 - j))] non-zero. *)
Definition firstSetBit (byte : Z) : option nat :=
  find (fun j => negb (Z.land byte (Z.shiftl 1 (7 - Z.of_nat j)) =? 0))
       (seq 0 8).

(** The outer loop, from byte index [i] on. *)
Fixpoint scanBuffer (buffer : list Z) (i : nat) : option nat :=
  match buffer with
  | [] => None
  | byte :: rest =>
      match firstSetBit byte with
      | Some j => Some (i * 8 + j)%nat
      | None => scanBuffer rest (S i)
      end
  end.

Definition getBucketIndex (n : KademliaNode) (nodeId' : string) : nat :=
  let distance := xorDistance (nodeId n) nodeId' in
  let buffer := Buffer_from_hex distance in
  default 159%nat (scanBuffer buffer 0).

(** [addNode(nodeId, address)] at time [now].  When the index is outside the
    160-slot array, [bucket] is [undefined] and [bucket.findIndex] throws. *)
Definition addNode (n : KademliaNode) (nodeId' address' : string) (now : Z)
  : Completion KademliaNode :=
  let bucketIndex := getBucketIndex n nodeId' in
  match buckets n !! bucketIndex with
  | None => Throw (TypeError "Cannot read properties of undefined")
  | Some bucket =>
      let existingIndex :=
        findIndex (fun node => String.eqb (id node) nodeId') bucket in
      let bucket1 :=
        match existingIndex with
        | Some i => delete i bucket
        | None => bucket
        end in
      let bucket2 := mkContact nodeId' address' now :: bucket1 in
      let bucket3 :=
        if (k n <? length bucket2)%nat then pop bucket2 else bucket2 in
      Normal (set_buckets n (<[bucketIndex := bucket3]> (buckets n)))
  end.

(** An element of the array [findClosestNodes] returns:
    [{ ...node, distance }]. *)
Record Scored : Type := mkScored {
  node : Contact;
  distance : string
}.

(** [findClosestNodes(target, count)]. *)
Definition findClosestNodes (n : KademliaNode) (target : string) (count : Z)
  : list Scored :=
  let allNodes := concat (buckets n) in
  slice0
    (sort (fun a b => localeCompare (distance a) (distance b))
       (map (fun node => mkScored node (xorDistance (id node) target))
            allNodes))
    count.

(** The default argument [count = this.k]. *)
Definition findClosestNodes_default (n : KademliaNode) (target : string)
  : list Scored :=
  findClosestNodes n target (Z.of_nat (k n)).

(** ** The datagram socket *)

(** One [socket.send(JSON.stringify(message), port, host)]: the message
    object and the [host:port] string it is addressed to. *)
Record Datagram : Type := mkDatagram {
  dest : string;
  message : JsValue
}.

(** How [socket.send] ends for a datagram: the callback runs without an
    error, runs with an error, or has not run when the 5 s timer fires. *)
Inductive SendOutcome : Type :=
| Sent
| Failed (err : string)
| Stalled.

(** A settled promise, as [Promise.allSettled] reports it. *)
Inductive Settled : Type :=
| Fulfilled (v : JsValue)
| Rejected (reason : JsError).

(** The state an awaited promise ends in; [Pending] never settles. *)
Inductive Promise (A : Type) : Type :=
| Resolved (a : A)
| Failure (reason : JsError)
| Pending.
Arguments Resolved {A} a.
Arguments Failure {A} reason.
Arguments Pending {A}.

Definition scoredToJs (s : Scored) : JsValue :=
  JObj [("id", JStr (id (node s)));
        ("address", JStr (address (node s)));
        ("lastSeen", JNum (lastSeen (node s)));
        ("distance", JStr (distance s))].

(** A parsed inbound frame with the field types of the wire protocol;
    [f_nodeId = None] is a frame without a [nodeId] field. *)
Record Frame : Type := mkFrame {
  f_type : string;
  f_nodeId : option string;
  f_key : string;
  f_value : JsValue
}.

Section WithHash.

(** [crypto.createHash('sha1').update(key).digest('hex')]. *)
Variable sha1 : string -> string.

(** The outcome of each [socket.send]. *)
Variable net : Datagram -> SendOutcome.

(** [sendStore] has no timer: the promise settles only when the send
    callback runs. *)
Definition sendStore (n : KademliaNode) (address' key : string)
  (value' : JsValue) : Promise unit * Datagram :=
  let message :=
    JObj [("type", JStr "STORE"); ("key", JStr key); ("value", value');
          ("nodeId", JStr (nodeId n))] in
  let d := mkDatagram address' message in
  match net d with
  | Sent => (Resolved tt, d)
  | Failed err => (Failure (Error err), d)
  | Stalled => (Pending, d)
  end.

(** [sendFindValue]: the promise resolves, with no value, as soon as the
    datagram is handed over; it rejects on a send error or after 5 s. *)
Definition sendFindValue (n : KademliaNode) (address' key : string)
  : Settled * Datagram :=
  let message :=
    JObj [("type", JStr "FIND_VALUE"); ("key", JStr key);
          ("nodeId", JStr (nodeId n))] in
  let d := mkDatagram address' message in
  match net d with
  | Sent => (Fulfilled JUndefined, d)
  | Failed err => (Rejected (Error err), d)
  | Stalled => (Rejected (Error "Timeout"), d)
  end.

(** The sequential [for ... await this.sendStore] loop of [store]: it stops
    at the first send that rejects, and waits for ever on one that stalls. *)
Fixpoint storeLoop (n : KademliaNode) (keyHash : string) (value' : JsValue)
  (targets : list Scored) : Promise unit * list Datagram :=
  match targets with
  | [] => (Resolved tt, [])
  | t :: rest =>
      match sendStore n (address (node t)) keyHash value' with
      | (Resolved _, d) =>
          let '(r, ds) := storeLoop n keyHash value' rest in (r, d :: ds)
      | (r, d) => (r, [d])
      end
  end.

(** [store(key, value)] at time [now]. *)
Definition store (n : KademliaNode) (key : string) (value' : JsValue)
  (now : Z) : KademliaNode * Promise unit * list Datagram :=
  let keyHash := sha1 key in
  let n1 :=
    set_storage n (<[keyHash := mkEntry value' now 3600000]> (storage n)) in
  let closestNodes := findClosestNodes_default n1 keyHash in
  let '(r, ds) :=
    storeLoop n1 keyHash value' (slice0 closestNodes (Z.of_nat (k n1))) in
  (n1, r, ds).

(** The local branch of [retrieve] and of the FIND_VALUE handler: the entry
    under [keyHash], if there is one and [now - timestamp < ttl]. *)
Definition freshEntry (n : KademliaNode) (keyHash : string) (now : Z)
  : option StorageEntry :=
  match storage n !! keyHash with
  | Some stored =>
      if now - timestamp stored <? ttl stored then Some stored else None
  | None => None
  end.

(** The loop over the settled results: the first fulfilled, truthy value. *)
Fixpoint firstFulfilled (results : list Settled) : JsValue :=
  match results with
  | [] => JNull
  | Fulfilled v :: rest => if truthy v then v else firstFulfilled rest
  | Rejected _ :: rest => firstFulfilled rest
  end.

(** [retrieve(key)] at time [now]: the value the promise resolves to and the
    datagrams handed to the socket. *)
Definition retrieve (n : KademliaNode) (key : string) (now : Z)
  : JsValue * list Datagram :=
  let keyHash := sha1 key in
  match freshEntry n keyHash now with
  | Some stored => (value stored, [])
  | None =>
      let closestNodes := findClosestNodes_default n keyHash in
      let queries :=
        map (fun node' => sendFindValue n (address (node node')) keyHash)
            (slice0 closestNodes (Z.of_nat (alpha n))) in
      let results := map fst queries in
      (firstFulfilled results, map snd queries)
  end.

(** [sendResponse(address, type, data)]. *)
Definition sendResponse (n : KademliaNode) (address' type : string)
  (data : JsValue) : Datagram :=
  mkDatagram address'
    (JObj [("type", JStr type); ("data", data); ("nodeId", JStr (nodeId n))]).

(** [handleMessage(msg, rinfo)] at time [now], for a frame that parsed;
    [senderAddress] is the string built from [rinfo].  Whatever is thrown is
    caught and logged: the node is then left as it was and nothing is sent. *)
Definition handleMessage (n : KademliaNode) (msg : Frame)
  (senderAddress : string) (now : Z) : KademliaNode * list Datagram :=
  match f_nodeId msg with
  | None => (n, [])
  | Some sender =>
      match addNode n sender senderAddress now with
      | Throw _ => (n, [])
      | Normal n1 =>
          if String.eqb (f_type msg) "STORE" then
            (set_storage n1
               (<[f_key msg := mkEntry (f_value msg) now 3600000]>
                  (storage n1)), [])
          else if String.eqb (f_type msg) "FIND_VALUE" then
            match freshEntry n1 (f_key msg) now with
            | Some stored =>
                (n1, [sendResponse n1 senderAddress "FOUND" (value stored)])
            | None =>
                let closestNodes := findClosestNodes_default n1 (f_key msg) in
                (n1, [sendResponse n1 senderAddress "NODES"
                        (JArr (map scoredToJs closestNodes))])
            end
          else if String.eqb (f_type msg) "PING" then
            (n1, [sendResponse n1 senderAddress "PONG"
                    (JObj [("nodeId", JStr (nodeId n1))])])
          else if String.eqb (f_type msg) "NAT_PUNCH" then
            (n1, [sendResponse n1 senderAddress "NAT_PUNCH_ACK"
                    (JObj [("nodeId", JStr (nodeId n1))])])
          else (n1, [])
      end
  end.

End WithHash.

End Kademlia.

(* ================================================================== *)
(** * core/AnonymousIdentity.js *)
(* ================================================================== *)

Module Identity.
Import Js.

(** Key material is opaque to the program: a key is the string that
    encodes it. *)
Record KeyPair : Type := mkKeyPair {
  publicKey : string;
  privateKey : string
}.

(** [{ keyPair, created, uses }]. *)
Record EphemeralKey : Type := mkEphemeral {
  keyPair : KeyPair;
  created : Z;
  uses : Z
}.

Record AnonymousIdentity : Type := mkIdentity {
  identityKeyPair : KeyPair;
  ephemeralKeys : gmap string EphemeralKey;
  reputation : Z;
  pseudonym : string
}.

(** [new AnonymousIdentity()], for the key pair and the 16 random bytes (in
    hex) that the constructor draws. *)
Definition new (kp : KeyPair) (pseudonym' : string) : AnonymousIdentity :=
  {| identityKeyPair := kp;
     ephemeralKeys := ∅;
     reputation := 0;
     pseudonym := pseudonym' |}.

Definition set_ephemeralKeys (self : AnonymousIdentity)
  (ks : gmap string EphemeralKey) : AnonymousIdentity :=
  {| identityKeyPair := identityKeyPair self;
     ephemeralKeys := ks;
     reputation := reputation self;
     pseudonym := pseudonym self |}.

(** [generateEphemeralKey()] at time [now], for the fresh key pair [kp] and
    the random [keyId] it draws. *)
Definition generateEphemeralKey (self : AnonymousIdentity) (kp : KeyPair)
  (keyId : string) (now : Z) : AnonymousIdentity * string :=
  (set_ephemeralKeys self
     (<[keyId := mkEphemeral kp now 0]> (ephemeralKeys self)),
   keyId).

Section WithSign.

(** [crypto.sign('sha256', message, privateKey)]: the raw signature. *)
Variable crypto_sign : string -> string -> string.

(** [signWithEphemeral(message, keyId)] at time [now].  The entry is
    updated in place ([uses++]), removed when it is over either cap, and the
    signature is computed from the entry read at the start in both cases. *)
Definition signWithEphemeral (self : AnonymousIdentity)
  (message keyId : string) (now : Z)
  : Completion (AnonymousIdentity * string) :=
  match ephemeralKeys self !! keyId with
  | None => Throw (Error "Ephemeral key not found")
  | Some ephemeral =>
      let ephemeral1 :=
        mkEphemeral (keyPair ephemeral) (created ephemeral)
                    (uses ephemeral + 1) in
      let keys1 := <[keyId := ephemeral1]> (ephemeralKeys self) in
      let keys2 :=
        if (100 <? uses ephemeral1) || (3600000 <? now - created ephemeral1)
        then delete keyId keys1
        else keys1 in
      let signature :=
        crypto_sign message (privateKey (keyPair ephemeral1)) in
      Normal (set_ephemeralKeys self keys2, Buffer_toString_base64 signature)
  end.

(** The operations a caller can apply to an identity. *)
Inductive Op : Type :=
| Generate (kp : KeyPair) (keyId : string) (now : Z)
| Sign (message keyId : string) (now : Z).

(** One operation; a throwing [Sign] leaves the identity as it was. *)
Definition step (self : AnonymousIdentity) (op : Op) : AnonymousIdentity :=
  match op with
  | Generate kp keyId now => fst (generateEphemeralKey self kp keyId now)
  | Sign message keyId now =>
      match signWithEphemeral self message keyId now with
      | Normal (self', _) => self'
      | Throw _ => self
      end
  end.

Definition run (self : AnonymousIdentity) (ops : list Op)
  : AnonymousIdentity :=
  fold_left step ops self.

End WithSign.

End Identity.

(* ================================================================== *)
(** * core/OnionRouter.js *)
(* ================================================================== *)

Module Onion.
Import Js.

(** A circuit element [{ id, publicKey, address }]. *)
Record Hop : Type := mkHop {
  id : string;
  publicKey : string;
  address : string
}.

(** What [getNodeInfo] resolves to: [{ publicKey, address }]. *)
Record NodeInfo : Type := mkNodeInfo {
  info_publicKey : string;
  info_address : string
}.

Record OnionRouter : Type := mkRouter {
  circuits : gmap string (list Hop);
  relayNodes : gset string;
  circuitLength : nat
}.

Definition new : OnionRouter :=
  {| circuits := ∅; relayNodes := ∅; circuitLength := 3 |}.

(** The random draws of the module, by the place that makes them. *)
Record Random : Type := mkRandom {
  (** [crypto.randomBytes(16).toString('hex')] in [encryptLayer], for the
      layer of hop [i] *)
  layerTag : nat -> string;
  (** [crypto.randomBytes(16).toString('hex')] in [buildCircuit] *)
  circuitIdDraw : string;
  (** the key and the address [getNodeInfo] makes up on its [i]-th call *)
  discovered : nat -> NodeInfo;
  (** [crypto.randomBytes(20).toString('hex')] in the [i]-th iteration of
      [findCircuitNodes] *)
  lookupKey : nat -> string
}.

Section WithCrypto.

(** [crypto.publicEncrypt(publicKey, data)]; [None] when it throws. *)
Variable publicEncrypt : string -> string -> option string.

(** [crypto.privateDecrypt(privateKey, data)]; [None] when it throws. *)
Variable privateDecrypt : string -> string -> option string.

(** [Buffer.from(s, 'base64')] for a string [s], as a byte string. *)
Variable Buffer_from_base64 : string -> string.

(** [Buffer.from(v, 'base64')] for an array or an object [v]: the bytes of
    an array, of an array-like object or of the JSON form of a buffer;
    [None] when [Buffer.from] throws. *)
Variable Buffer_from_object : JsValue -> option string.

(** [JSON.parse(text)]; [None] when it throws. *)
Variable JSON_parse : string -> option JsValue.

Variable rnd : Random.

(** [encryptLayer(data, publicKey)]; [tag] is the random [nextHop]. *)
Definition encryptLayer (data : JsValue) (publicKey' : string) (tag : string)
  : Completion JsValue :=
  match stringify data with
  | None => Throw (TypeError "The first argument must be of type string")
  | Some serialized =>
      match publicEncrypt publicKey' serialized with
      | None => Throw (Error "data too large for key size")
      | Some encrypted =>
          Normal (JObj [("encrypted", JStr (Buffer_toString_base64 encrypted));
                        ("nextHop", JStr tag)])
      end
  end.

(** The loop [for (i = circuit.length - 1; i >= 0; i--)] over the hops from
    index [i] on: the hops after the first are wrapped before it. *)
Fixpoint wrapFrom (packet : JsValue) (i : nat) (hops : list Hop)
  : Completion JsValue :=
  match hops with
  | [] => Normal packet
  | node :: rest =>
      bind (wrapFrom packet (S i) rest)
           (fun inner => encryptLayer inner (publicKey node) (layerTag rnd i))
  end.

(** [createOnionPacket(message, circuit)] at time [now]. *)
Definition createOnionPacket (message : JsValue) (circuit : list Hop)
  (now : Z) : Completion JsValue :=
  let packet := JObj [("payload", message); ("timestamp", JNum now)] in
  wrapFrom packet 0 circuit.

(** [decryptLayer(packet, privateKey)]: every failure inside the [try] is
    rethrown as [Error('Decryption failed')].  [Buffer.from] takes a string,
    an array or an object, and refuses a missing field, a number, a boolean
    and [null]. *)
Definition decryptLayer (packet : JsValue) (privateKey' : string)
  : Completion JsValue :=
  let failed := Throw (Error "Decryption failed") in
  let buffer :=
    match getProp packet "encrypted" with
    | Normal (JStr encrypted) => Some (Buffer_from_base64 encrypted)
    | Normal (JArr items) => Buffer_from_object (JArr items)
    | Normal (JObj fields) => Buffer_from_object (JObj fields)
    | Normal _ => None
    | Throw _ => None
    end in
  match buffer with
  | Some data =>
      match privateDecrypt privateKey' data with
      | Some decrypted =>
          match JSON_parse decrypted with
          | Some v => Normal v
          | None => failed
          end
      | None => failed
      end
  | None => failed
  end.

(** [getNodeInfo(nodeId)], on its [i]-th call: the body is a simulation that
    does not look at [nodeId] and always resolves to an object. *)
Definition getNodeInfo (i : nat) (nodeId : string) : option NodeInfo :=
  Some (discovered rnd i).

(** The loop of [buildCircuit] from the [i]-th target on. *)
Fixpoint resolveFrom (i : nat) (targetNodes : list string) : list Hop :=
  match targetNodes with
  | [] => []
  | nodeId :: rest =>
      match getNodeInfo i nodeId with
      | Some node =>
          mkHop nodeId (info_publicKey node) (info_address node)
            :: resolveFrom (S i) rest
      | None => resolveFrom (S i) rest
      end
  end.

(** [buildCircuit(targetNodes)]: the router with the circuit recorded, and
    the circuit id. *)
Definition buildCircuit (self : OnionRouter) (targetNodes : list string)
  : OnionRouter * string :=
  let circuitId := circuitIdDraw rnd in
  let circuit := resolveFrom 0 targetNodes in
  ({| circuits := <[circuitId := circuit]> (circuits self);
      relayNodes := relayNodes self;
      circuitLength := circuitLength self |},
   circuitId).

End WithCrypto.

End Onion.

(* ================================================================== *)
(** * network/AnonymousP2PNode.js *)
(* ================================================================== *)

Module P2P.
Import Js.

Record AnonymousP2PNode : Type := mkP2P {
  port : Z;
  identity : Identity.AnonymousIdentity;
  onionRouter : Onion.OnionRouter;
  dht : Kademlia.KademliaNode;
  (** [peerId -> socket], a socket being known by a handle *)
  peers : gmap string nat;
  (** [{ message, peerId, timestamp }] *)
  messageQueue : list (JsValue * string * Z);
  coverTraffic : bool;
  mixingDelay : Z
}.

Definition set_onionRouter (self : AnonymousP2PNode)
  (r : Onion.OnionRouter) : AnonymousP2PNode :=
  {| port := port self; identity := identity self; onionRouter := r;
     dht := dht self; peers := peers self;
     messageQueue := messageQueue self; coverTraffic := coverTraffic self;
     mixingDelay := mixingDelay self |}.

(** What a method does to the outside, in order. *)
Inductive Effect : Type :=
| Emit (event : string) (arg : JsValue)
    (** [this.emit(event, arg)] *)
| Connect (address : string)
    (** [net.createConnection(port, host)] for [address = host:port] *)
| Write (address : string) (message : JsValue)
    (** [socket.write(JSON.stringify(message))] *)
| End_ (address : string)
    (** [socket.end()] *)
| ConsoleError (e : JsError)
    (** [console.error(..., e)] *).

(** A call [this.name(...)] of a method that the class does not define and
    does not inherit: the property is [undefined], the call throws. *)
Definition callUndefinedMethod {A : Type} (name : string) : Completion A :=
  Throw (TypeError (name +:+ " is not a function")).

Section WithEnvironment.

Variable publicEncrypt : string -> string -> option string.
Variable privateDecrypt : string -> string -> option string.
Variable Buffer_from_base64 : string -> string.
Variable Buffer_from_object : JsValue -> option string.
Variable JSON_parse : string -> option JsValue.
Variable rnd : Onion.Random.

(** Whether the stream connection to an address is established. *)
Variable connects : string -> bool.

(** [sendToNode(address, message)]. *)
Definition sendToNode (address : string) (message : JsValue)
  : Completion unit * list Effect :=
  if connects address
  then (Normal tt, [Connect address; Write address message; End_ address])
  else (Throw (Error "connect failed"), [Connect address]).

(** The body of the [try] block of [processOnionPacket].  The class has no
    method [forwardOnionPacket], and neither has [EventEmitter]. *)
Definition processOnionPacket_try (self : AnonymousP2PNode)
  (message : JsValue) (peerId : string) : Completion (list Effect) :=
  bind (getProp message "packet") (fun packet =>
  bind (Onion.decryptLayer privateDecrypt Buffer_from_base64
          Buffer_from_object JSON_parse packet
          (Identity.privateKey
             (Identity.identityKeyPair (identity self)))) (fun decrypted =>
  bind (getProp decrypted "nextHop") (fun nextHop =>
  if truthy nextHop
  then callUndefinedMethod "this.forwardOnionPacket"
  else bind (getProp decrypted "payload") (fun payload =>
       Normal [Emit "anonymousMessage" payload])))).

(** [processOnionPacket(message, peerId)]: what is thrown is logged. *)
Definition processOnionPacket (self : AnonymousP2PNode)
  (message : JsValue) (peerId : string) : list Effect :=
  match processOnionPacket_try self message peerId with
  | Normal effects => effects
  | Throw error => [ConsoleError error]
  end.

(** [processMessage(message, peerId)].  Of the four handlers only
    [processOnionPacket] is defined. *)
Definition processMessage (self : AnonymousP2PNode)
  (message : JsValue) (peerId : string) : Completion (list Effect) :=
  bind (getProp message "type") (fun type =>
  match type with
  | JStr t =>
      if String.eqb t "ONION_PACKET" then
        Normal (processOnionPacket self message peerId)
      else if String.eqb t "DHT_QUERY" then
        callUndefinedMethod "this.processDHTQuery"
      else if String.eqb t "PEER_DISCOVERY" then
        callUndefinedMethod "this.processPeerDiscovery"
      else if String.eqb t "ANONYMOUS_MESSAGE" then
        callUndefinedMethod "this.processAnonymousMessage"
      else Normal []
  | _ => Normal []
  end).

(** The loop of [findCircuitNodes(count)] from iteration [i], with
    [remaining] iterations to go. *)
Fixpoint findCircuitNodesFrom (self : AnonymousP2PNode) (i remaining : nat)
  : list string :=
  match remaining with
  | O => []
  | S remaining' =>
      let randomKey := Onion.lookupKey rnd i in
      let closestNodes := Kademlia.findClosestNodes (dht self) randomKey 1 in
      match closestNodes with
      | first :: _ =>
          Kademlia.id (Kademlia.node first)
            :: findCircuitNodesFrom self (S i) remaining'
      | [] => findCircuitNodesFrom self (S i) remaining'
      end
  end.

Definition findCircuitNodes (self : AnonymousP2PNode) (count : nat)
  : list string :=
  findCircuitNodesFrom self 0 count.

(** [sendAnonymousMessage(message, targetPseudonym)] at time [now]: the node
    afterwards, how the promise settles, and the effects. *)
Definition sendAnonymousMessage (self : AnonymousP2PNode)
  (message : JsValue) (targetPseudonym : string) (now : Z)
  : AnonymousP2PNode * Completion unit * list Effect :=
  let circuitNodes := findCircuitNodes self 3 in
  let '(router1, circuitId) :=
    Onion.buildCircuit rnd (onionRouter self) circuitNodes in
  let self1 := set_onionRouter self router1 in
  match Onion.circuits router1 !! circuitId with
  | None =>
      (self1, Throw (TypeError "Cannot read properties of undefined"), [])
  | Some circuit =>
      match Onion.createOnionPacket publicEncrypt rnd message circuit now with
      | Throw e => (self1, Throw e, [])
      | Normal packet =>
          match circuit !! 0%nat with
          | None =>
              (self1,
               Throw (TypeError "Cannot read properties of undefined"), [])
          | Some firstHop =>
              let '(r, effects) :=
                sendToNode (Onion.address firstHop)
                  (JObj [("type", JStr "ONION_PACKET");
                         ("packet", packet);
                         ("circuitId", JStr circuitId)]) in
              (self1, r, effects)
          end
      end
  end.

End WithEnvironment.

End P2P.

(* ================================================================== *)
(** * Specification-side notions *)
(* ================================================================== *)

Module Spec.
Import Js.

(** Bit [p] of a byte sequence, bit 0 being the most significant bit of the
    first byte. *)
Definition bitAt (d : list Z) (p : nat) : bool :=
  Z.testbit (nth (p / 8) d 0) (7 - Z.of_nat (p mod 8)).

(** [i] is the position of the most significant set bit of [d]; when no
    bit of [d] is set, [i] is 159. *)
Definition msbIndex (d : list Z) (i : nat) : Prop :=
  ((i < 8 * length d)%nat /\ bitAt d i = true /\
   forall p, (p < i)%nat -> bitAt d p = false)
  \/ ((forall p, (p < 8 * length d)%nat -> bitAt d p = false) /\ i = 159%nat).

(** A byte sequence read as a big-endian unsigned integer. *)
Definition beZ (d : list Z) : Z :=
  fold_left (fun acc b => acc * 256 + b) d 0.

(** The XOR of two identifiers given in hex, as the code forms it: byte by
    byte over the length of the first. *)
Definition xorOf (a b : string) : list Z :=
  Kademlia.xorBuffers (Buffer_from_hex a) (Buffer_from_hex b).




(** The FIND_VALUE datagram addressed to a contact. *)
Definition query (n : Kademlia.KademliaNode) (keyHash : string)
  (s : Kademlia.Scored) : Kademlia.Datagram :=
  Kademlia.mkDatagram (Kademlia.address (Kademlia.node s))
    (JObj [("type", JStr "FIND_VALUE"); ("key", JStr keyHash);
           ("nodeId", JStr (Kademlia.nodeId n))]).

(** Every key the identity holds has been used at most 100 times. *)
Definition capped (self : Identity.AnonymousIdentity) : Prop :=
  forall keyId e,
    Identity.ephemeralKeys self !! keyId = Some e -> Identity.uses e <= 100.

(** [observe]: [addNode] as its caller [handleMessage] runs it, a throw
    leaving the node as it was. *)
Definition observe (n : Kademlia.KademliaNode) (o : string * string * Z)
  : Kademlia.KademliaNode :=
  let '(nodeId, address, now) := o in
  match Kademlia.addNode n nodeId address now with
  | Normal n' => n'
  | Throw _ => n
  end.

Definition observeAll (n : Kademlia.KademliaNode)
  (os : list (string * string * Z)) : Kademlia.KademliaNode :=
  fold_left observe os n.

(** An identifier written the way [toString('hex')] writes one: two
    lowercase digits for every byte, and nothing else. *)
Definition canonical (s : string) : Prop :=
  Buffer_toString_hex (Buffer_from_hex s) = s.

(** The NodeID an identifier string stands for, as an unsigned integer. *)
Definition nodeIdZ (s : string) : Z := beZ (Buffer_from_hex s).

(** In a word of [w] bits whose most significant bit is bit 0, [i] is the
    position of the highest set bit of [x]; for [x = 0] it is 159. *)
Definition msbOf (w : nat) (x : Z) (i : nat) : Prop :=
  (x = 0 /\ i = 159%nat) \/
  (0 < x /\ Z.of_nat i = Z.of_nat w - 1 - Z.log2 x).

(** The routing-table invariant, with the bucket index as the code
    computes it. *)
Definition RoutingInv (n : Kademlia.KademliaNode) : Prop :=
  forall (i : nat) (bucket : list Kademlia.Contact),
    Kademlia.buckets n !! i = Some bucket ->
    (length bucket <= Kademlia.k n)%nat /\
    List.NoDup (map Kademlia.id bucket) /\
    forall c, In c bucket -> Kademlia.getBucketIndex n (Kademlia.id c) = i.

End Spec.

(* ================================================================== *)
(** * Concrete nodes and environments *)
(* ================================================================== *)

Module Sample.
Import Js.

Definition zeros38 : string := "00000000000000000000000000000000000000".

(** A node whose identifier is zero, and three identifiers of bucket 0. *)
Definition selfId : string := "00" +:+ zeros38.
Definition idA : string := "80" +:+ zeros38.
Definition idB : string := "81" +:+ zeros38.
Definition idC : string := "82" +:+ zeros38.

Definition node0 : Kademlia.KademliaNode :=
  Kademlia.new selfId 3000 "c7d1e0a49b3f5826170d4c8e2a6b9f0351e7d2c4".

(** The same node configured with [k = 2]. *)
Definition node0_k2 : Kademlia.KademliaNode :=
  {| Kademlia.nodeId := selfId; Kademlia.port := 3000;
     Kademlia.buckets := replicate 160 []; Kademlia.storage := ∅;
     Kademlia.alpha := 3; Kademlia.k := 2 |}.

Definition obsA : string * string * Z := (idA, "10.0.0.1:3000", 1000).
Definition obsB : string * string * Z := (idB, "10.0.0.2:3000", 2000).
Definition obsC : string * string * Z := (idC, "10.0.0.3:3000", 3000).

(** The table after three observations. *)
Definition node3 : Kademlia.KademliaNode :=
  Spec.observeAll node0 [obsA; obsB; obsC].

Definition targetId : string := "81" +:+ zeros38.

(** Two identifiers that differ as strings and decode to the same bytes. *)
Definition idLower : string := "ab" +:+ zeros38.
Definition idUpper : string := "AB" +:+ zeros38.

Definition nodeTie : Kademlia.KademliaNode :=
  Spec.observeAll node0
    [(idLower, "10.0.0.1:3000", 1000); (idUpper, "10.0.0.2:3000", 2000)].

(** A stand-in for the hash: every key hashes to [targetId]. *)
Definition constHash (key : string) : string := targetId.

(** A network on which every datagram is sent. *)
Definition allSent (d : Kademlia.Datagram) : Kademlia.SendOutcome :=
  Kademlia.Sent.

(** [node3] after [store("alpha", 42)] at time 5000. *)
Definition node3_alpha : Kademlia.KademliaNode :=
  fst (fst (Kademlia.store constHash allSent node3 "alpha" (JNum 42) 5000)).

Definition findValueFrame : Kademlia.Frame :=
  Kademlia.mkFrame "FIND_VALUE" (Some idA) targetId JUndefined.

(** Stand-ins for the signing primitive and for key material. *)
Definition toySign (message key : string) : string := key +:+ message.

Definition keysLongTerm : Identity.KeyPair :=
  Identity.mkKeyPair "pub-0" "priv-0".
Definition keysEphemeral : Identity.KeyPair :=
  Identity.mkKeyPair "pub-1" "priv-1".

Definition identity0 : Identity.AnonymousIdentity :=
  Identity.new keysLongTerm "5f3a9c0d1e2b4a6f8091a2b3c4d5e6f7".

(** A stand-in for RSA-2048 with OAEP: at most 214 bytes go in, 256 bytes
    come out (the plaintext followed by padding). *)
Fixpoint padding (n : nat) : string :=
  match n with
  | O => EmptyString
  | S n' => String "0"%char (padding n')
  end.

Definition toyEncrypt (publicKey data : string) : option string :=
  if (String.length data <=? 214)%nat
  then Some (data +:+ padding (256 - String.length data))
  else None.

Definition toyDecrypt (privateKey data : string) : option string :=
  Some data.

Definition toyBase64Decode (s : string) : string := s.

(** A stand-in for [Buffer.from] on arrays and objects: the bytes of an
    array of numbers; any other value is refused. *)
Definition toyBufferFrom (v : JsValue) : option string :=
  match v with
  | JArr items =>
      Some (string_of_list_ascii
              (map (fun item =>
                      match item with
                      | JNum z => ascii_of_N (Z.to_N (z mod 256))
                      | _ => ascii_of_N 0
                      end) items))
  | _ => None
  end.

(** A parser stand-in that reads every text as one forwarding layer. *)
Definition forwardingLayer : JsValue :=
  JObj [("encrypted", JStr "QUJD"); ("nextHop", JStr "10.0.0.7:3000")].

Definition toyParse (text : string) : option JsValue := Some forwardingLayer.

Definition toyRandom : Onion.Random :=
  {| Onion.layerTag := fun _ => "000102030405060708090a0b0c0d0e0f";
     Onion.circuitIdDraw := "a0a1a2a3a4a5a6a7a8a9aaabacadaeaf";
     Onion.discovered := fun _ => Onion.mkNodeInfo "pub-relay" "10.0.0.9:3000";
     Onion.lookupKey := fun _ => targetId |}.

Definition circuit3 : list Onion.Hop :=
  [Onion.mkHop idA "pub-a" "10.0.0.1:3000";
   Onion.mkHop idB "pub-b" "10.0.0.2:3000";
   Onion.mkHop idC "pub-c" "10.0.0.3:3000"].

Definition allConnect (address : string) : bool := true.

(** An overlay node with an empty routing table, and one that has seen
    three contacts. *)
Definition p2pEmpty : P2P.AnonymousP2PNode :=
  {| P2P.port := 3000; P2P.identity := identity0;
     P2P.onionRouter := Onion.new; P2P.dht := node0;
     P2P.peers := ∅; P2P.messageQueue := [];
     P2P.coverTraffic := true; P2P.mixingDelay := 100 |}.

Definition p2pSeen : P2P.AnonymousP2PNode :=
  {| P2P.port := 3000; P2P.identity := identity0;
     P2P.onionRouter := Onion.new; P2P.dht := node3;
     P2P.peers := ∅; P2P.messageQueue := [];
     P2P.coverTraffic := true; P2P.mixingDelay := 100 |}.

Definition onionFrame : JsValue :=
  JObj [("type", JStr "ONION_PACKET");
        ("packet", JObj [("encrypted", JStr "QUJD");
                         ("nextHop", JStr "000102030405060708090a0b0c0d0e0f")]);
        ("circuitId", JStr "a0a1a2a3a4a5a6a7a8a9aaabacadaeaf")].

End Sample.

(* ================================================================== *)
(** * The remaining methods of the classes *)
(* ================================================================== *)

(** core/AnonymousIdentity.js: the challenge proofs. *)
Module ZK.
Import Js.

Section WithHash.

(** [crypto.createHash('sha256').update(a).update(b).digest('hex')] is the
    digest of the bytes of [a] followed by those of [b]: [sha256] maps the
    bytes fed to the hash to the hex digest. *)
Variable sha256 : string -> string.

(** [createZKProof(challenge)]. *)
Definition createZKProof (self : Identity.AnonymousIdentity)
  (challenge : string) : string :=
  sha256 (Identity.pseudonym self +:+ challenge).

(** [verifyZKProof(proof, challenge, pseudonym)]; the method does not read
    [this]. *)
Definition verifyZKProof (self : Identity.AnonymousIdentity)
  (proof challenge pseudonym : string) : bool :=
  let expected := sha256 (pseudonym +:+ challenge) in
  String.eqb proof expected.

End WithHash.

End ZK.

(** network/AnonymousP2PNode.js: the peer set and the inbound queue. *)
Module Overlay.
Import Js.

Definition set_peers (self : P2P.AnonymousP2PNode) (ps : gmap string nat)
  : P2P.AnonymousP2PNode :=
  {| P2P.port := P2P.port self; P2P.identity := P2P.identity self;
     P2P.onionRouter := P2P.onionRouter self; P2P.dht := P2P.dht self;
     P2P.peers := ps; P2P.messageQueue := P2P.messageQueue self;
     P2P.coverTraffic := P2P.coverTraffic self;
     P2P.mixingDelay := P2P.mixingDelay self |}.

Definition set_messageQueue (self : P2P.AnonymousP2PNode)
  (q : list (JsValue * string * Z)) : P2P.AnonymousP2PNode :=
  {| P2P.port := P2P.port self; P2P.identity := P2P.identity self;
     P2P.onionRouter := P2P.onionRouter self; P2P.dht := P2P.dht self;
     P2P.peers := P2P.peers self; P2P.messageQueue := q;
     P2P.coverTraffic := P2P.coverTraffic self;
     P2P.mixingDelay := P2P.mixingDelay self |}.

(** [handlePeerConnection(socket)], for the [peerId] it draws: the two
    handlers are installed and the socket is recorded. *)
Definition handlePeerConnection (self : P2P.AnonymousP2PNode)
  (peerId : string) (socket : nat) : P2P.AnonymousP2PNode :=
  set_peers self (<[peerId := socket]> (P2P.peers self)).

(** The [close] handler installed for [peerId]. *)
Definition onClose (self : P2P.AnonymousP2PNode) (peerId : string)
  : P2P.AnonymousP2PNode :=
  set_peers self (delete peerId (P2P.peers self)).

(** One [peer.write(JSON.stringify(message))] on a socket. *)
Record PeerWrite : Type := mkPeerWrite {
  socket : nat;
  written : JsValue
}.

(** [sendToPeer(peerId, message)]. *)
Definition sendToPeer (self : P2P.AnonymousP2PNode) (peerId : string)
  (message : JsValue) : list PeerWrite :=
  match P2P.peers self !! peerId with
  | Some peer => [mkPeerWrite peer message]
  | None => []
  end.

Section WithParser.

Variable JSON_parse : string -> option JsValue.

(** [handleIncomingMessage(data, peerId)] at time [now]: the node
    afterwards, and the call [processMessage(message, peerId)] that the
    timer is set to make (after a random delay, which is not modelled).
    Data that does not parse is logged and dropped. *)
Definition handleIncomingMessage (self : P2P.AnonymousP2PNode)
  (data peerId : string) (now : Z)
  : P2P.AnonymousP2PNode * option (JsValue * string) :=
  match JSON_parse data with
  | Some message =>
      (set_messageQueue self
         (P2P.messageQueue self ++ [(message, peerId, now)]),
       Some (message, peerId))
  | None => (self, None)
  end.

End WithParser.

End Overlay.

(** Sequences of calls. *)
Module Runs.
Import Js.

(** Frames handled one after the other: the node afterwards and all the
    datagrams sent, in order. *)
Definition handleAll (n : Kademlia.KademliaNode)
  (inputs : list (Kademlia.Frame * string * Z))
  : Kademlia.KademliaNode * list Kademlia.Datagram :=
  fold_left
    (fun (acc : Kademlia.KademliaNode * list Kademlia.Datagram)
         (input : Kademlia.Frame * string * Z) =>
       let '(msg, senderAddress, now) := input in
       let '(n', sent) :=
         Kademlia.handleMessage (fst acc) msg senderAddress now in
       (n', snd acc ++ sent))
    inputs (n, []).

(** The STORE datagram addressed to a contact. *)
Definition storeDatagram (n : Kademlia.KademliaNode) (keyHash : string)
  (v : JsValue) (s : Kademlia.Scored) : Kademlia.Datagram :=
  Kademlia.mkDatagram (Kademlia.address (Kademlia.node s))
    (JObj [("type", JStr "STORE"); ("key", JStr keyHash); ("value", v);
           ("nodeId", JStr (Kademlia.nodeId n))]).

(** Chunks received from peers, one after the other. *)
Definition receiveAll (JSON_parse : string -> option JsValue)
  (self : P2P.AnonymousP2PNode) (chunks : list (string * string * Z))
  : P2P.AnonymousP2PNode :=
  fold_left
    (fun (acc : P2P.AnonymousP2PNode) (chunk : string * string * Z) =>
       let '(data, peerId, now) := chunk in
       fst (Overlay.handleIncomingMessage JSON_parse acc data peerId now))
    chunks self.

End Runs.

(** More concrete inputs. *)
Module Sample2.
Import Js.

(** A node whose identifier has 21 bytes, and an identifier that differs
    from it in the last one. *)
Definition longSelf : string := "00" +:+ Sample.selfId.
Definition longOther : string := Sample.selfId +:+ "01".
Definition nodeLong : Kademlia.KademliaNode :=
  Kademlia.new longSelf 3000 "c7d1e0a49b3f5826170d4c8e2a6b9f0351e7d2c4".

Definition pingFrame : Kademlia.Frame :=
  Kademlia.mkFrame "PING" (Some longOther) EmptyString JUndefined.

Definition storeFrame : Kademlia.Frame :=
  Kademlia.mkFrame "STORE" (Some Sample.idB) Sample.targetId (JStr "other").

(** A network on which the datagrams for 10.0.0.1 are refused and all
    others are sent. *)
Definition unreachableA (d : Kademlia.Datagram) : Kademlia.SendOutcome :=
  if String.eqb (Kademlia.dest d) "10.0.0.1:3000"
  then Kademlia.Failed "ENETUNREACH"
  else Kademlia.Sent.

(** A hash stand-in that keeps its input, so that different inputs have
    different digests. *)
Definition plainHash (data : string) : string := data.

(** The inverse of [Sample.toyEncrypt] on texts that do not end in [0]:
    the padding is taken off. *)
Fixpoint unpad (s : string) : string :=
  match s with
  | EmptyString => EmptyString
  | String c rest =>
      let r := unpad rest in
      if Ascii.eqb c "0"%char && String.eqb r EmptyString
      then EmptyString
      else String c r
  end.

Definition unpadDecrypt (privateKey data : string) : option string :=
  Some (unpad data).

(** A base64 decoder for well-formed input. *)
Fixpoint indexOf (c : ascii) (alphabet : string) (i : Z) : option Z :=
  match alphabet with
  | EmptyString => None
  | String a rest => if Ascii.eqb a c then Some i else indexOf c rest (i + 1)
  end.

Definition sextet (c : ascii) : option Z := indexOf c base64Alphabet 0.

Definition byteChar (v : Z) : ascii := ascii_of_N (Z.to_N v).

Fixpoint base64Decode (s : string) : string :=
  match s with
  | String a (String b (String c (String d rest))) =>
      match sextet a, sextet b with
      | Some x, Some y =>
          String (byteChar (x * 4 + y / 16))
            match sextet c with
            | Some z =>
                String (byteChar (y mod 16 * 16 + z / 4))
                  match sextet d with
                  | Some w =>
                      String (byteChar (z mod 4 * 64 + w)) (base64Decode rest)
                  | None => EmptyString
                  end
            | None => EmptyString
            end
      | _, _ => EmptyString
      end
  | _ => EmptyString
  end.

(** The record [createOnionPacket] starts from for the message [hello], its
    JSON text, and a parser stand-in that reads that text. *)
Definition helloRecord : JsValue :=
  JObj [("payload", JStr "hello"); ("timestamp", JNum 1700000000000)].

Definition helloText : string :=
  default EmptyString (stringify helloRecord).

Definition helloParse (text : string) : option JsValue :=
  if String.eqb text helloText then Some helloRecord else None.

Definition hopSelf : Onion.Hop :=
  Onion.mkHop Sample.selfId "pub-0" "10.0.0.8:3000".

(** A parser stand-in for frames: a text that starts with an opening brace
    is read as a DUMMY_TRAFFIC frame, any other text is refused. *)
Definition dummyFrame : JsValue :=
  JObj [("type", JStr "DUMMY_TRAFFIC"); ("data", JStr "00ff");
        ("timestamp", JNum 1)].

Definition braceParse (text : string) : option JsValue :=
  match text with
  | String c _ => if Ascii.eqb c "{"%char then Some dummyFrame else None
  | EmptyString => None
  end.

(** A node that has seen one contact only. *)
Definition p2pOne : P2P.AnonymousP2PNode :=
  {| P2P.port := 3000; P2P.identity := Sample.identity0;
     P2P.onionRouter := Onion.new;
     P2P.dht := Spec.observeAll Sample.node0 [Sample.obsA];
     P2P.peers := ∅; P2P.messageQueue := [];
     P2P.coverTraffic := true; P2P.mixingDelay := 100 |}.

End Sample2.

(* ================================================================== *)
(** * Facts about the runtime fragment *)
(* ================================================================== *)

Module JsFacts.
Import Js.

Lemma hexDigit_hexChar (d : Z) : 0 <= d < 16 -> hexDigit (hexChar d) = Some d.
Proof.
  intros Hd.
  assert (Hcases : d = 0 \/ d = 1 \/ d = 2 \/ d = 3 \/ d = 4 \/ d = 5 \/
                   d = 6 \/ d = 7 \/ d = 8 \/ d = 9 \/ d = 10 \/ d = 11 \/
                   d = 12 \/ d = 13 \/ d = 14 \/ d = 15) by lia.
  repeat (destruct Hcases as [-> | Hcases]; [reflexivity |]).
  subst d. reflexivity.
Qed.

Lemma Buffer_hex_roundtrip (buf : list Z) :
  bytes buf -> Buffer_from_hex (Buffer_toString_hex buf) = buf.
Proof.
  induction 1 as [| b rest Hb _ IH]; [reflexivity |].
  cbn [Buffer_toString_hex Buffer_from_hex].
  rewrite !hexDigit_hexChar.
  - rewrite IH. f_equal. pose proof (Z.div_mod b 16). lia.
  - apply Z.mod_pos_bound. lia.
  - split; [apply Z.div_pos; lia | apply Z.div_lt_upper_bound; lia].
Qed.

Lemma hexDigit_range (c : ascii) (x : Z) : hexDigit c = Some x -> 0 <= x < 16.
Proof.
  unfold hexDigit. set (n := Z.of_N (N_of_ascii c)).
  repeat case_match; intros [= <-]; lia.
Qed.

Lemma Buffer_from_hex_bytes (s : string) : bytes (Buffer_from_hex s).
Proof.
  unfold bytes.
  assert (H : forall n s, (String.length s <= n)%nat ->
                          Forall (fun b => 0 <= b < 256) (Buffer_from_hex s)).
  { clear s. induction n as [| n IH]; intros s Hs.
    - destruct s; [constructor | simpl in Hs; lia].
    - destruct s as [| a [| b rest]]; try constructor.
      cbn [Buffer_from_hex].
      destruct (hexDigit a) as [x |] eqn:Ha; [| constructor].
      destruct (hexDigit b) as [y |] eqn:Hb; [| constructor].
      apply hexDigit_range in Ha, Hb.
      constructor; [lia |]. apply IH. simpl in Hs. lia. }
  apply (H (String.length s)). lia.
Qed.

Lemma lxor_byte (a b : Z) :
  0 <= a < 256 -> 0 <= b < 256 -> 0 <= Z.lxor a b < 256.
Proof.
  intros Ha Hb.
  assert (Hnn : 0 <= Z.lxor a b) by (apply Z.lxor_nonneg; lia).
  split; [exact Hnn |].
  destruct (Z.eq_dec (Z.lxor a b) 0) as [-> | Hne]; [lia |].
  apply (Z.log2_lt_pow2 _ 8); [lia |].
  eapply Z.le_lt_trans; [apply Z.log2_lxor; lia |].
  apply Z.max_lub_lt.
  - destruct (Z.eq_dec a 0) as [-> | ?]; [reflexivity |].
    apply Z.log2_lt_pow2; lia.
  - destruct (Z.eq_dec b 0) as [-> | ?]; [reflexivity |].
    apply Z.log2_lt_pow2; lia.
Qed.

End JsFacts.

(* ================================================================== *)
(** * The routing table *)
(* ================================================================== *)

Module KademliaFacts.
Import Js JsFacts Kademlia Spec.

(** ** The bucket index is the position of the first set bit *)

Lemma land_bit (b m : Z) :
  0 <= m -> (Z.land b (Z.shiftl 1 m) =? 0) = negb (Z.testbit b m).
Proof.
  intros Hm. rewrite Z.shiftl_1_l.
  assert (H : Z.land b (2 ^ m) = if Z.testbit b m then 2 ^ m else 0).
  { apply Z.bits_inj'. intros n Hn.
    rewrite Z.land_spec, Z.pow2_bits_eqb by lia.
    destruct (Z.eqb_spec m n) as [-> | Hne].
    - destruct (Z.testbit b n); [| now rewrite Z.bits_0].
      rewrite Z.pow2_bits_eqb by lia. now rewrite Z.eqb_refl.
    - rewrite andb_false_r.
      destruct (Z.testbit b m); [| now rewrite Z.bits_0].
      rewrite Z.pow2_bits_eqb by lia. symmetry. now apply Z.eqb_neq. }
  rewrite H. destruct (Z.testbit b m); [| reflexivity].
  apply Z.eqb_neq. pose proof (Z.pow_pos_nonneg 2 m). lia.
Qed.

Lemma find_first {A : Type} (p : A -> bool) (l : list A) (x : A) :
  find p l = Some x ->
  exists l1 l2, l = l1 ++ x :: l2 /\ p x = true /\
                forall y, In y l1 -> p y = false.
Proof.
  induction l as [| a l IH]; [discriminate |]. simpl.
  destruct (p a) eqn:Hpa.
  - intros [= ->]. exists [], l. repeat split; [assumption | intros y []].
  - intros Hf. destruct (IH Hf) as (l1 & l2 & -> & Hx & Hbefore).
    exists (a :: l1), l2. repeat split; [assumption |].
    intros y [<- | Hy]; [assumption | now apply Hbefore].
Qed.

Lemma seq_split_at (len j : nat) (l1 l2 : list nat) :
  seq 0 len = l1 ++ j :: l2 ->
  (j < len)%nat /\ forall j', (j' < j)%nat -> In j' l1.
Proof.
  intros Hs.
  assert (Hj : In j (seq 0 len)) by (rewrite Hs; apply in_elt).
  apply in_seq in Hj. split; [lia |].
  assert (Hlen : length l1 = j).
  { assert (Hnth : nth (length l1) (seq 0 len) 0%nat = j)
      by (rewrite Hs; apply nth_middle).
    rewrite seq_nth in Hnth; [lia |].
    rewrite <- (length_seq len 0), Hs, length_app. simpl. lia. }
  intros j' Hj'.
  assert (Hnth : nth j' (seq 0 len) 0%nat = j') by (rewrite seq_nth; lia).
  rewrite Hs, app_nth1 in Hnth by lia.
  rewrite <- Hnth. apply nth_In. lia.
Qed.

Lemma firstSetBit_Some (b : Z) (j : nat) :
  firstSetBit b = Some j ->
  (j < 8)%nat /\ Z.testbit b (7 - Z.of_nat j) = true /\
  forall j', (j' < j)%nat -> Z.testbit b (7 - Z.of_nat j') = false.
Proof.
  unfold firstSetBit. intros Hf.
  destruct (find_first _ _ _ Hf) as (l1 & l2 & Hs & Hj & Hbefore).
  destruct (seq_split_at _ _ _ _ Hs) as [Hlt Hin].
  split; [assumption |]. split.
  - rewrite land_bit, negb_involutive in Hj by lia. exact Hj.
  - intros j' Hj'. specialize (Hbefore j' (Hin j' Hj')).
    rewrite land_bit, negb_involutive in Hbefore by lia. exact Hbefore.
Qed.

Lemma firstSetBit_None (b : Z) :
  firstSetBit b = None ->
  forall j, (j < 8)%nat -> Z.testbit b (7 - Z.of_nat j) = false.
Proof.
  unfold firstSetBit. intros Hf j Hj.
  pose proof (find_none _ _ Hf j) as Hn. cbv beta in Hn.
  rewrite land_bit, negb_involutive in Hn by lia.
  apply Hn. apply in_seq. lia.
Qed.

Lemma bitAt_head (b : Z) (rest : list Z) (q : nat) :
  (q < 8)%nat -> bitAt (b :: rest) q = Z.testbit b (7 - Z.of_nat q).
Proof.
  intros Hq. unfold bitAt.
  rewrite Nat.div_small, Nat.mod_small by lia. reflexivity.
Qed.

Lemma bitAt_tail (b : Z) (rest : list Z) (q : nat) :
  bitAt (b :: rest) (8 + q) = bitAt rest q.
Proof.
  unfold bitAt.
  replace ((8 + q) / 8)%nat with (S (q / 8)).
  2:{ replace (8 + q)%nat with (q + 1 * 8)%nat by lia.
      rewrite Nat.div_add by lia. lia. }
  replace ((8 + q) mod 8)%nat with (q mod 8)%nat.
  2:{ replace (8 + q)%nat with (q + 1 * 8)%nat by lia.
      now rewrite Nat.Div0.mod_add. }
  reflexivity.
Qed.

Lemma scanBuffer_Some (buffer : list Z) (i p : nat) :
  scanBuffer buffer i = Some p ->
  exists q, p = (i * 8 + q)%nat /\ (q < 8 * length buffer)%nat /\
            bitAt buffer q = true /\
            forall q', (q' < q)%nat -> bitAt buffer q' = false.
Proof.
  revert i. induction buffer as [| b rest IH]; intros i; [discriminate |].
  cbn [scanBuffer]. destruct (firstSetBit b) as [j |] eqn:Hb.
  - intros [= <-]. destruct (firstSetBit_Some _ _ Hb) as (Hj & Hset & Hclear).
    exists j. cbn [length]. repeat split; [lia | | ].
    + now rewrite bitAt_head.
    + intros q' Hq'. rewrite bitAt_head by lia. now apply Hclear.
  - intros Hs. destruct (IH _ Hs) as (q & -> & Hq & Hset & Hclear).
    exists (8 + q)%nat. cbn [length]. repeat split; [lia | lia | |].
    + now rewrite bitAt_tail.
    + intros q' Hq'. destruct (Nat.lt_ge_cases q' 8) as [Hlow | Hhigh].
      * rewrite bitAt_head by lia. now apply (firstSetBit_None _ Hb).
      * replace q' with (8 + (q' - 8))%nat by lia.
        rewrite bitAt_tail. apply Hclear. lia.
Qed.

Lemma scanBuffer_None (buffer : list Z) (i : nat) :
  scanBuffer buffer i = None ->
  forall q, (q < 8 * length buffer)%nat -> bitAt buffer q = false.
Proof.
  revert i. induction buffer as [| b rest IH]; intros i Hs q Hq.
  - simpl in Hq. lia.
  - cbn [scanBuffer] in Hs. destruct (firstSetBit b) eqn:Hb; [discriminate |].
    destruct (Nat.lt_ge_cases q 8) as [Hlow | Hhigh].
    + rewrite bitAt_head by lia. now apply (firstSetBit_None _ Hb).
    + replace q with (8 + (q - 8))%nat by lia.
      rewrite bitAt_tail. apply (IH _ Hs). cbn [length] in Hq. lia.
Qed.

Lemma nth_byte (buf : list Z) (i : nat) : bytes buf -> 0 <= nth i buf 0 < 256.
Proof.
  intros Hb. destruct (Nat.lt_ge_cases i (length buf)) as [Hlt | Hge].
  - unfold bytes in Hb. rewrite List.Forall_forall in Hb.
    apply Hb. now apply nth_In.
  - rewrite nth_overflow by lia. lia.
Qed.

Lemma xorBuffers_bytes (bufA bufB : list Z) :
  bytes bufA -> bytes bufB -> bytes (xorBuffers bufA bufB).
Proof.
  intros HA HB. unfold bytes, xorBuffers.
  apply List.Forall_forall. intros x Hx.
  apply in_map_iff in Hx. destruct Hx as (i & <- & _).
  apply lxor_byte; now apply nth_byte.
Qed.

Lemma xorDistance_decoded (a b : string) :
  Buffer_from_hex (xorDistance a b) = xorOf a b.
Proof.
  unfold xorDistance, xorOf. apply Buffer_hex_roundtrip.
  apply xorBuffers_bytes; apply Buffer_from_hex_bytes.
Qed.

(** The index [getBucketIndex] returns is the position of the most
    significant set bit of the XOR with the node's own identifier, and 159
    when the XOR is zero. *)
Lemma getBucketIndex_msb (n : KademliaNode) (x : string) :
  msbIndex (xorOf (nodeId n) x) (getBucketIndex n x).
Proof.
  unfold getBucketIndex. cbv zeta. rewrite xorDistance_decoded.
  destruct (scanBuffer (xorOf (nodeId n) x) 0) as [p |] eqn:Hs; cbn [default].
  - left. destruct (scanBuffer_Some _ _ _ Hs) as (q & -> & Hq & Hset & Hclear).
    simpl. auto.
  - right. split; [| reflexivity]. now apply (scanBuffer_None _ 0).
Qed.

(** ** [addNode]: one observation *)

Lemma findIndex_None {A : Type} (p : A -> bool) (l : list A) :
  findIndex p l = None -> forall z, In z l -> p z = false.
Proof.
  induction l as [| a l IH]; intros Hf z Hz; [destruct Hz |].
  cbn [findIndex] in Hf. destruct (p a) eqn:Hpa; [discriminate |].
  destruct (findIndex p l); [discriminate |].
  destruct Hz as [<- | Hz]; [assumption | now apply IH].
Qed.

Lemma findIndex_Some {A : Type} (p : A -> bool) (l : list A) (i : nat) :
  findIndex p l = Some i ->
  exists pre y post,
    l = pre ++ y :: post /\ p y = true /\
    (forall z, In z pre -> p z = false) /\ delete i l = pre ++ post.
Proof.
  revert i. induction l as [| a l IH]; intros i Hf; [discriminate |].
  cbn [findIndex] in Hf. destruct (p a) eqn:Hpa.
  - injection Hf as <-. exists [], a, l. repeat split; [assumption |].
    intros z [].
  - destruct (findIndex p l) as [j |]; [| discriminate].
    injection Hf as <-.
    destruct (IH j eq_refl) as (pre & y & post & -> & Hy & Hpre & Hdel).
    exists (a :: pre), y, post. repeat split; [assumption | |].
    + intros z [<- | Hz]; [assumption | now apply Hpre].
    + cbn. f_equal. exact Hdel.
Qed.

(** The computation [addNode] performs on the bucket it finds. *)
Lemma addNode_at (n : KademliaNode) (x e : string) (t : Z) (i : nat)
  (bucket : list Contact) :
  getBucketIndex n x = i ->
  buckets n !! i = Some bucket ->
  addNode n x e t =
  Normal (set_buckets n
    (<[i :=
       let pushed :=
         mkContact x e t ::
         match findIndex (fun node => String.eqb (id node) x) bucket with
         | Some j => delete j bucket
         | None => bucket
         end in
       if (k n <? length pushed)%nat then pop pushed else pushed]>
     (buckets n))).
Proof.
  intros Hi Hb. unfold addNode. cbv zeta. rewrite Hi, Hb. reflexivity.
Qed.

(** Removal of the entry with identifier [x], if there is one, the push to
    the front, and the drop of the tail when the bucket is over [k]. *)
Lemma addNode_step (n : KademliaNode) (x e : string) (t : Z)
  (bucket : list Contact) :
  buckets n !! getBucketIndex n x = Some bucket ->
  exists removed kept,
    addNode n x e t =
      Normal (set_buckets n (<[getBucketIndex n x := kept]> (buckets n))) /\
    ((removed = bucket /\ forall c, In c bucket -> id c <> x) \/
     (exists pre old post,
         bucket = pre ++ old :: post /\ id old = x /\
         (forall c, In c pre -> id c <> x) /\ removed = pre ++ post)) /\
    (((length (mkContact x e t :: removed) <= k n)%nat /\
      kept = mkContact x e t :: removed) \/
     ((k n < length (mkContact x e t :: removed))%nat /\
      exists tail, mkContact x e t :: removed = kept ++ [tail])).
Proof.
  intros Hb. rewrite (addNode_at n x e t _ bucket eq_refl Hb). cbv zeta.
  set (p := fun node => String.eqb (id node) x).
  set (removed := match findIndex p bucket with
                  | Some j => delete j bucket
                  | None => bucket
                  end).
  exists removed.
  exists (if (k n <? length (mkContact x e t :: removed))%nat
          then pop (mkContact x e t :: removed)
          else mkContact x e t :: removed).
  split; [reflexivity |]. split.
  - subst removed. destruct (findIndex p bucket) as [j |] eqn:Hf.
    + right. destruct (findIndex_Some _ _ _ Hf)
        as (pre & old & post & Hsplit & Hold & Hpre & Hdel).
      exists pre, old, post. subst p. cbv beta in Hold, Hpre.
      repeat split; try assumption.
      * now apply String.eqb_eq.
      * intros c Hc. apply String.eqb_neq. now apply Hpre.
    + left. split; [reflexivity |]. intros c Hc.
      apply String.eqb_neq. apply (findIndex_None _ _ Hf c Hc).
  - destruct (Nat.ltb_spec (k n) (length (mkContact x e t :: removed)))
      as [Hover | Hfit].
    + right. split; [assumption |].
      exists (List.last (mkContact x e t :: removed) (mkContact x e t)).
      unfold pop. apply app_removelast_last. discriminate.
    + left. split; [assumption | reflexivity].
Qed.

Lemma addNode_fields (n n' : KademliaNode) (x e : string) (t : Z) :
  addNode n x e t = Normal n' ->
  nodeId n' = nodeId n /\ k n' = k n /\ storage n' = storage n /\
  length (buckets n') = length (buckets n).
Proof.
  unfold addNode. cbv zeta.
  destruct (buckets n !! getBucketIndex n x); [| discriminate].
  intros [= <-]. cbn. rewrite length_insert. auto.
Qed.

(** ** The invariant *)

Lemma new_inv (self : string) (port' : Z) (drawn : string) :
  RoutingInv (new self port' drawn).
Proof.
  intros i bucket Hb. change (buckets (new self port' drawn)) with
    (replicate 160 ([] : list Contact)) in Hb.
  apply lookup_replicate in Hb. destruct Hb as [-> _].
  repeat split; [cbn; lia | constructor | intros c []].
Qed.

Lemma addNode_inv (n n' : KademliaNode) (x e : string) (t : Z) :
  RoutingInv n -> addNode n x e t = Normal n' -> RoutingInv n'.
Proof.
  intros Hinv Hadd.
  destruct (buckets n !! getBucketIndex n x) as [bucket |] eqn:Hb.
  2:{ unfold addNode in Hadd. cbv zeta in Hadd. rewrite Hb in Hadd.
      discriminate. }
  destruct (addNode_step n x e t bucket Hb)
    as (removed & kept & Heq & Hremoved & Hkept).
  rewrite Heq in Hadd. injection Hadd as <-.
  destruct (Hinv _ _ Hb) as (Hlen & Hnodup & Hidx).
  assert (Hsub : forall c, In c removed -> In c bucket).
  { destruct Hremoved as [[-> _] | (pre & old & post & -> & _ & _ & ->)].
    - auto.
    - intros c Hc. apply in_app_iff in Hc. apply in_app_iff.
      destruct Hc; [left | right; right]; assumption. }
  assert (Hrlen : (length removed <= length bucket)%nat).
  { destruct Hremoved as [[-> _] | (pre & old & post & -> & _ & _ & ->)].
    - lia.
    - rewrite !length_app. cbn. lia. }
  assert (Hfresh : ~ In x (map id removed)).
  { destruct Hremoved as [[-> Hne] | (pre & old & post & -> & Hold & Hpre & ->)].
    - intros Hin. apply in_map_iff in Hin. destruct Hin as (c & Hc & Hin).
      now apply (Hne c Hin).
    - rewrite map_app in Hnodup. cbn [map] in Hnodup.
      apply List.NoDup_remove_2 in Hnodup. rewrite Hold in Hnodup.
      now rewrite map_app. }
  assert (Hrnodup : List.NoDup (map id removed)).
  { destruct Hremoved as [[-> _] | (pre & old & post & -> & _ & _ & ->)].
    - assumption.
    - rewrite map_app in Hnodup. cbn [map] in Hnodup.
      apply List.NoDup_remove_1 in Hnodup. now rewrite map_app. }
  assert (Hpushed : List.NoDup (map id (mkContact x e t :: removed))).
  { cbn [map id]. now constructor. }
  intros i bucket' Hb'. cbn [buckets set_buckets] in Hb'.
  change (k (set_buckets n _)) with (k n).
  assert (Hget : forall y, getBucketIndex (set_buckets n
                   (<[getBucketIndex n x := kept]> (buckets n))) y
                 = getBucketIndex n y) by reflexivity.
  destruct (Nat.eq_dec (getBucketIndex n x) i) as [<- | Hne].
  - rewrite list_lookup_insert_eq in Hb' by (eapply lookup_lt_Some; eassumption).
    injection Hb' as <-.
    destruct Hkept as [[Hfit ->] | [Hover [tail Htail]]].
    + repeat split; [assumption | assumption |].
      intros c [<- | Hc]; [reflexivity |].
      rewrite Hget. apply Hidx. now apply Hsub.
    + assert (Hklen : length kept = length removed).
      { apply (f_equal (@length _)) in Htail.
        rewrite length_app in Htail. cbn in Htail. lia. }
      repeat split.
      * lia.
      * rewrite Htail, map_app in Hpushed.
        now apply List.NoDup_app_remove_r in Hpushed.
      * intros c Hc. rewrite Hget.
        assert (Hin : In c (mkContact x e t :: removed))
          by (rewrite Htail; apply in_app_iff; now left).
        destruct Hin as [<- | Hin]; [reflexivity |].
        apply Hidx. now apply Hsub.
  - rewrite list_lookup_insert_ne in Hb' by assumption.
    destruct (Hinv _ _ Hb') as (Hlen' & Hnodup' & Hidx').
    repeat split; try assumption.
Qed.

Lemma observe_inv (n : KademliaNode) (o : string * string * Z) :
  RoutingInv n -> RoutingInv (observe n o).
Proof.
  intros Hinv. destruct o as [[x e] t]. unfold observe.
  destruct (addNode n x e t) as [n' | err] eqn:Hadd; [| assumption].
  eapply addNode_inv; eassumption.
Qed.

Lemma observeAll_inv (n : KademliaNode) (os : list (string * string * Z)) :
  RoutingInv n -> RoutingInv (observeAll n os).
Proof.
  revert n. induction os as [| o os IH]; intros n Hinv; [assumption |].
  change (observeAll n (o :: os)) with (observeAll (observe n o) os).
  apply IH. now apply observe_inv.
Qed.

Lemma observe_nodeId (n : KademliaNode) (o : string * string * Z) :
  nodeId (observe n o) = nodeId n /\ k (observe n o) = k n.
Proof.
  destruct o as [[x e] t]. unfold observe.
  destruct (addNode n x e t) as [n' | err] eqn:Hadd; [| auto].
  destruct (addNode_fields _ _ _ _ _ Hadd) as (H1 & H2 & _). auto.
Qed.

Lemma observeAll_nodeId (n : KademliaNode) (os : list (string * string * Z)) :
  nodeId (observeAll n os) = nodeId n /\ k (observeAll n os) = k n.
Proof.
  revert n. induction os as [| o os IH]; intros n; [auto |].
  change (observeAll n (o :: os)) with (observeAll (observe n o) os).
  destruct (IH (observe n o)) as [H1 H2].
  destruct (observe_nodeId n o) as [H3 H4].
  rewrite H1, H2. auto.
Qed.

(** ** The two scenarios *)








(** ** Claims on [addNode] *)



End KademliaFacts.

(* ================================================================== *)
(** * Sorting by distance *)
(* ================================================================== *)

Module ClosestFacts.
Import Js JsFacts Kademlia Spec KademliaFacts.

(** ** [localeCompare] on hex renderings is the numeric order *)





Lemma fold_beZ (a : list Z) (acc : Z) :
  fold_left (fun acc b => acc * 256 + b) a acc
  = acc * 256 ^ Z.of_nat (length a) + beZ a.
Proof.
  unfold beZ. revert acc. induction a as [| x a IH]; intros acc.
  - cbn. lia.
  - cbn [fold_left length]. rewrite IH, (IH (0 * 256 + x)).
    rewrite Nat2Z.inj_succ, Z.pow_succ_r by lia. lia.
Qed.

Lemma beZ_cons (x : Z) (a : list Z) :
  beZ (x :: a) = x * 256 ^ Z.of_nat (length a) + beZ a.
Proof. unfold beZ at 1. cbn [fold_left]. rewrite fold_beZ. lia. Qed.

Lemma beZ_bound (a : list Z) :
  bytes a -> 0 <= beZ a < 256 ^ Z.of_nat (length a).
Proof.
  induction 1 as [| x a Hx _ IH].
  - cbn. lia.
  - rewrite beZ_cons. cbn [length].
    rewrite Nat2Z.inj_succ, Z.pow_succ_r by lia. nia.
Qed.


(** ** The byte-wise XOR is the XOR of the integers *)

Lemma lxor_bound (m a b : Z) :
  0 <= m -> 0 <= a < 2 ^ m -> 0 <= b < 2 ^ m -> 0 <= Z.lxor a b < 2 ^ m.
Proof.
  intros Hm Ha Hb.
  assert (Hnn : 0 <= Z.lxor a b) by (apply Z.lxor_nonneg; lia).
  split; [exact Hnn |].
  destruct (Z.eq_dec (Z.lxor a b) 0) as [-> | Hne]; [lia |].
  apply Z.log2_lt_pow2; [lia |].
  eapply Z.le_lt_trans; [apply Z.log2_lxor; lia |].
  apply Z.max_lub_lt.
  - destruct (Z.eq_dec a 0) as [-> | ?].
    + cbn. destruct (Z.eq_dec m 0) as [-> | ?]; [| lia].
      exfalso. apply Hne.
      assert (b = 0) by (cbn in Hb; lia). now subst.
    + apply Z.log2_lt_pow2; lia.
  - destruct (Z.eq_dec b 0) as [-> | ?].
    + cbn. destruct (Z.eq_dec m 0) as [-> | ?]; [| lia].
      exfalso. apply Hne.
      assert (a = 0) by (cbn in Ha; lia). now subst.
    + apply Z.log2_lt_pow2; lia.
Qed.

Lemma testbit_split (m x r i : Z) :
  0 <= m -> 0 <= r < 2 ^ m -> 0 <= i ->
  Z.testbit (x * 2 ^ m + r) i
  = if i <? m then Z.testbit r i else Z.testbit x (i - m).
Proof.
  intros Hm Hr Hi. destruct (Z.ltb_spec i m) as [Hlt | Hge].
  - rewrite <- (Z.mod_pow2_bits_low (x * 2 ^ m + r) m i) by lia.
    f_equal. rewrite Z.add_comm, Z.mod_add by lia.
    apply Z.mod_small. lia.
  - replace i with ((i - m) + m) at 1 by lia.
    rewrite <- Z.div_pow2_bits by lia. f_equal.
    rewrite Z.add_comm, Z.div_add by lia.
    rewrite Z.div_small by lia. lia.
Qed.

Lemma lxor_split (m x y ra rb : Z) :
  0 <= m -> 0 <= ra < 2 ^ m -> 0 <= rb < 2 ^ m ->
  Z.lxor (x * 2 ^ m + ra) (y * 2 ^ m + rb)
  = Z.lxor x y * 2 ^ m + Z.lxor ra rb.
Proof.
  intros Hm Ha Hb. apply Z.bits_inj'. intros i Hi.
  pose proof (lxor_bound m ra rb Hm Ha Hb) as Hx.
  rewrite Z.lxor_spec, !testbit_split by assumption.
  destruct (i <? m); now rewrite Z.lxor_spec.
Qed.

Lemma xorBuffers_cons (x y : Z) (a b : list Z) :
  xorBuffers (x :: a) (y :: b) = Z.lxor x y :: xorBuffers a b.
Proof.
  unfold xorBuffers. cbn [length seq map nth]. f_equal.
  rewrite <- seq_shift, map_map. apply map_ext. intros i. reflexivity.
Qed.

Lemma beZ_xor (a b : list Z) :
  bytes a -> bytes b -> length a = length b ->
  beZ (xorBuffers a b) = Z.lxor (beZ a) (beZ b).
Proof.
  intros Ha. revert b. induction Ha as [| x a Hx Ha IH]; intros b Hb Hlen.
  - destruct b; [reflexivity | discriminate].
  - destruct Hb as [| y b Hy Hb]; [discriminate |].
    injection Hlen as Hlen.
    rewrite xorBuffers_cons, !beZ_cons, (IH b Hb Hlen).
    replace (length (xorBuffers a b)) with (length a)
      by (unfold xorBuffers; now rewrite length_map, length_seq).
    rewrite <- Hlen.
    pose proof (beZ_bound a Ha) as Ba. pose proof (beZ_bound b Hb) as Bb.
    rewrite <- Hlen in Bb.
    replace (256 ^ Z.of_nat (length a)) with (2 ^ (8 * Z.of_nat (length a))) in *
      by (rewrite Z.pow_mul_r by lia; reflexivity).
    symmetry. apply lxor_split; [lia | assumption | assumption].
Qed.

(** ** The stable insertion sort *)

Section Sorting.

Context {A : Type} (cmp : A -> A -> comparison) (key : A -> Z).

Lemma insert_perm (x : A) (s : list A) : Permutation (insert cmp x s) (x :: s).
Proof.
  induction s as [| y s IH]; [reflexivity |]. cbn [insert].
  destruct (cmp x y); try reflexivity.
  rewrite IH. apply perm_swap.
Qed.

Lemma sort_perm (l : list A) : Permutation (sort cmp l) l.
Proof.
  induction l as [| x l IH]; [reflexivity |].
  unfold sort in *. cbn [fold_right]. rewrite insert_perm. now constructor.
Qed.

Lemma sort_In (l : list A) (x : A) : In x (sort cmp l) <-> In x l.
Proof.
  split; apply Permutation_in; [| symmetry]; apply sort_perm.
Qed.





End Sorting.

(** ** [findClosestNodes] *)

Lemma xorOf_length (a b : string) :
  length (xorOf a b) = length (Buffer_from_hex a).
Proof. unfold xorOf, xorBuffers. now rewrite length_map, length_seq. Qed.

Lemma xorOf_bytes (a b : string) : bytes (xorOf a b).
Proof. apply xorBuffers_bytes; apply Buffer_from_hex_bytes. Qed.





End ClosestFacts.

(* ================================================================== *)
(** * Storage: local reads and the FIND_VALUE handler *)
(* ================================================================== *)

Module StorageFacts.
Import Js JsFacts Kademlia Spec KademliaFacts.

Section WithHash.

Variable sha1 : string -> string.
Variable net : Datagram -> SendOutcome.

Lemma freshEntry_Some (n : KademliaNode) (keyHash : string) (now : Z)
  (stored : StorageEntry) :
  freshEntry n keyHash now = Some stored <->
  storage n !! keyHash = Some stored /\ now - timestamp stored < ttl stored.
Proof.
  unfold freshEntry. destruct (storage n !! keyHash) as [e |].
  - destruct (Z.ltb_spec (now - timestamp e) (ttl e)); split.
    + intros [= ->]. auto.
    + intros [[= ->] _]. reflexivity.
    + discriminate.
    + intros [[= ->] Hlt]. lia.
  - split; [discriminate | intros [[=] _]].
Qed.

Lemma freshEntry_None (n : KademliaNode) (keyHash : string) (now : Z) :
  freshEntry n keyHash now = None <->
  forall stored, storage n !! keyHash = Some stored ->
                 ttl stored <= now - timestamp stored.
Proof.
  unfold freshEntry. destruct (storage n !! keyHash) as [e |].
  - destruct (Z.ltb_spec (now - timestamp e) (ttl e)); split.
    + discriminate.
    + intros H'. specialize (H' e eq_refl). lia.
    + intros _ stored [= <-]. assumption.
    + reflexivity.
  - split; [intros _ stored [=] | reflexivity].
Qed.

(** No settled [sendFindValue] promise carries a value. *)
Lemma firstFulfilled_queries (n : KademliaNode) (keyHash : string)
  (targets : list Scored) :
  firstFulfilled
    (map fst
       (map (fun node' => sendFindValue net n (address (node node')) keyHash)
            targets)) = JNull.
Proof.
  induction targets as [| t targets IH]; [reflexivity |].
  cbn [map]. unfold sendFindValue at 1. cbv zeta.
  destruct (net _); cbn [fst firstFulfilled truthy]; exact IH.
Qed.

Lemma queries_sent (n : KademliaNode) (keyHash : string)
  (targets : list Scored) :
  map snd
    (map (fun node' => sendFindValue net n (address (node node')) keyHash)
         targets) = map (query n keyHash) targets.
Proof.
  rewrite map_map. apply map_ext. intros s.
  unfold sendFindValue, query. cbv zeta. destruct (net _); reflexivity.
Qed.

Lemma retrieve_hit (n : KademliaNode) (key : string) (now : Z)
  (stored : StorageEntry) :
  freshEntry n (sha1 key) now = Some stored ->
  retrieve sha1 net n key now = (value stored, []).
Proof. intros Hf. unfold retrieve. cbv zeta. now rewrite Hf. Qed.

Lemma retrieve_miss (n : KademliaNode) (key : string) (now : Z) :
  freshEntry n (sha1 key) now = None ->
  retrieve sha1 net n key now =
  (JNull,
   map (query n (sha1 key))
       (slice0 (findClosestNodes_default n (sha1 key)) (Z.of_nat (alpha n)))).
Proof.
  intros Hf. unfold retrieve. cbv zeta. rewrite Hf.
  now rewrite firstFulfilled_queries, queries_sent.
Qed.

Lemma handleMessage_find_value (n n1 : KademliaNode) (msg : Frame)
  (sender senderAddress : string) (now : Z) :
  f_type msg = "FIND_VALUE" ->
  f_nodeId msg = Some sender ->
  addNode n sender senderAddress now = Normal n1 ->
  handleMessage n msg senderAddress now =
  (n1,
   [match freshEntry n (f_key msg) now with
    | Some stored => sendResponse n1 senderAddress "FOUND" (value stored)
    | None =>
        sendResponse n1 senderAddress "NODES"
          (JArr (map scoredToJs (findClosestNodes_default n1 (f_key msg))))
    end]).
Proof.
  intros Ht Hid Hadd. unfold handleMessage. rewrite Hid, Hadd, Ht.
  cbn [String.eqb Ascii.eqb Bool.eqb].
  destruct (addNode_fields _ _ _ _ _ Hadd) as (_ & _ & Hst & _).
  assert (Hfresh : freshEntry n1 (f_key msg) now = freshEntry n (f_key msg) now)
    by (unfold freshEntry; now rewrite Hst).
  rewrite Hfresh. destruct (freshEntry n (f_key msg) now); reflexivity.
Qed.

Lemma store_then_fresh (n : KademliaNode) (key : string) (v : JsValue)
  (t0 now : Z) :
  now - t0 < 3600000 ->
  freshEntry (fst (fst (store sha1 net n key v t0))) (sha1 key) now
  = Some (mkEntry v t0 3600000).
Proof.
  intros Hlt. unfold store. cbv zeta.
  destruct (storeLoop _ _ _ _ _) as [r ds]. cbn [fst].
  unfold freshEntry. cbn [storage set_storage].
  rewrite lookup_insert_eq. cbn [timestamp ttl].
  now replace (now - t0 <? 3600000) with true by (symmetry; apply Z.ltb_lt; lia).
Qed.

(** C8.  A stored entry is read exactly while [now - timestamp < ttl]:
    [retrieve] returns its value and sends nothing when the entry under the
    key's hash is that fresh, and otherwise goes to the network and returns
    nothing from the store; the FIND_VALUE handler sends the sender one
    datagram, [{ type: 'FOUND', data: value, nodeId }] for such an entry
    and [{ type: 'NODES', data: closest contacts, nodeId }] otherwise; and
    a value stored less than an hour ago is read back without a
    datagram. *)
Theorem storage_observable :
  (forall (n : KademliaNode) (key : string) (now : Z),
      (exists stored,
          storage n !! sha1 key = Some stored /\
          now - timestamp stored < ttl stored /\
          retrieve sha1 net n key now = (value stored, [])) \/
      ((forall stored, storage n !! sha1 key = Some stored ->
                       ttl stored <= now - timestamp stored) /\
       retrieve sha1 net n key now =
       (JNull,
        map (query n (sha1 key))
            (slice0 (findClosestNodes_default n (sha1 key))
                    (Z.of_nat (alpha n)))))) /\
  (forall (n n1 : KademliaNode) (msg : Frame) (sender senderAddress : string)
          (now : Z),
      f_type msg = "FIND_VALUE" ->
      f_nodeId msg = Some sender ->
      addNode n sender senderAddress now = Normal n1 ->
      (exists stored,
          storage n !! f_key msg = Some stored /\
          now - timestamp stored < ttl stored /\
          handleMessage n msg senderAddress now =
          (n1, [mkDatagram senderAddress
                  (JObj [("type", JStr "FOUND");
                         ("data", value stored);
                         ("nodeId", JStr (nodeId n))])])) \/
      ((forall stored, storage n !! f_key msg = Some stored ->
                       ttl stored <= now - timestamp stored) /\
       handleMessage n msg senderAddress now =
       (n1, [mkDatagram senderAddress
               (JObj [("type", JStr "NODES");
                      ("data",
                       JArr (map (fun s =>
                                    JObj [("id", JStr (id (node s)));
                                          ("address", JStr (address (node s)));
                                          ("lastSeen", JNum (lastSeen (node s)));
                                          ("distance", JStr (distance s))])
                                 (findClosestNodes n1 (f_key msg)
                                    (Z.of_nat (k n)))));
                      ("nodeId", JStr (nodeId n))])]))) /\
  (forall (n : KademliaNode) (key : string) (v : JsValue) (t0 now : Z),
      now - t0 < 3600000 ->
      retrieve sha1 net (fst (fst (store sha1 net n key v t0))) key now
      = (v, [])).
Proof.
  split; [| split].
  - intros n key now.
    destruct (freshEntry n (sha1 key) now) as [stored |] eqn:Hf.
    + left. exists stored. apply freshEntry_Some in Hf as Hf'.
      destruct Hf' as [Hs Hlt]. repeat split; try assumption.
      now apply retrieve_hit.
    + right. split; [now apply freshEntry_None | now apply retrieve_miss].
  - intros n n1 msg sender senderAddress now Ht Hid Hadd.
    rewrite (handleMessage_find_value n n1 msg sender senderAddress now
               Ht Hid Hadd).
    destruct (addNode_fields _ _ _ _ _ Hadd) as (Hself & Hk & _).
    unfold sendResponse, findClosestNodes_default, scoredToJs.
    rewrite Hself, Hk.
    destruct (freshEntry n (f_key msg) now) as [stored |] eqn:Hf.
    + left. exists stored. apply freshEntry_Some in Hf.
      destruct Hf as [Hs Hlt]. auto.
    + right. split; [now apply freshEntry_None | reflexivity].
  - intros n key v t0 now Hlt.
    rewrite (retrieve_hit _ key now (mkEntry v t0 3600000)); [reflexivity |].
    now apply store_then_fresh.
Qed.

(** A FOUND response that arrives is not matched with any query: the
    handler records the sender and does nothing else. *)
Lemma handleMessage_found_dropped (n n1 : KademliaNode) (msg : Frame)
  (sender senderAddress : string) (now : Z) :
  f_type msg = "FOUND" ->
  f_nodeId msg = Some sender ->
  addNode n sender senderAddress now = Normal n1 ->
  handleMessage n msg senderAddress now = (n1, []) /\
  storage n1 = storage n.
Proof.
  intros Ht Hid Hadd. unfold handleMessage. rewrite Hid, Hadd, Ht.
  split; [reflexivity |].
  now destruct (addNode_fields _ _ _ _ _ Hadd) as (_ & _ & Hst & _).
Qed.

Lemma slice0_length {A : Type} (l : list A) (count : nat) :
  (length (slice0 l (Z.of_nat count)) <= count)%nat.
Proof.
  unfold slice0.
  replace (Z.of_nat count <? 0) with false by (symmetry; apply Z.ltb_ge; lia).
  rewrite Nat2Z.id, length_firstn. lia.
Qed.

(** C2, on the code.  When the local entry is absent or expired,
    [retrieve] hands one FIND_VALUE datagram to the socket for each of the
    first [alpha] closest contacts and resolves to [null] whatever happens
    to the datagrams: a query that is sent fulfils with no value, so no
    response is ever returned. *)
Theorem retrieve_miss_null (n : KademliaNode) (key : string) (now : Z) :
  freshEntry n (sha1 key) now = None ->
  fst (retrieve sha1 net n key now) = JNull /\
  snd (retrieve sha1 net n key now)
  = map (query n (sha1 key))
        (slice0 (findClosestNodes_default n (sha1 key)) (Z.of_nat (alpha n)))
  /\ (length (snd (retrieve sha1 net n key now)) <= alpha n)%nat.
Proof.
  intros Hmiss. rewrite (retrieve_miss n key now Hmiss). cbn [fst snd].
  repeat split. rewrite length_map. apply slice0_length.
Qed.

End WithHash.

Lemma storage_observable_witness :
  retrieve Sample.constHash Sample.allSent Sample.node3_alpha "alpha" 6000
    = (JNum 42, []) /\
  snd (handleMessage Sample.node3_alpha Sample.findValueFrame
         "10.0.0.1:3000" 6000)
  = [mkDatagram "10.0.0.1:3000"
       (JObj [("type", JStr "FOUND"); ("data", JNum 42);
              ("nodeId", JStr Sample.selfId)])] /\
  snd (handleMessage Sample.node3_alpha Sample.findValueFrame
         "10.0.0.1:3000" 3605000)
  = [mkDatagram "10.0.0.1:3000"
       (JObj [("type", JStr "NODES");
              ("data",
               JArr [JObj [("id", JStr Sample.idB);
                           ("address", JStr "10.0.0.2:3000");
                           ("lastSeen", JNum 2000);
                           ("distance", JStr Sample.selfId)];
                     JObj [("id", JStr Sample.idA);
                           ("address", JStr "10.0.0.1:3000");
                           ("lastSeen", JNum 3605000);
                           ("distance", JStr ("01" +:+ Sample.zeros38))];
                     JObj [("id", JStr Sample.idC);
                           ("address", JStr "10.0.0.3:3000");
                           ("lastSeen", JNum 3000);
                           ("distance", JStr ("03" +:+ Sample.zeros38))]]);
              ("nodeId", JStr Sample.selfId)])].
Proof.
  destruct (storage_observable Sample.constHash Sample.allSent)
    as (_ & Hhandler & Hput).
  split; [| split].
  - apply (Hput Sample.node3 "alpha" (JNum 42) 5000 6000). lia.
  - destruct (Hhandler Sample.node3_alpha
                (observe Sample.node3_alpha (Sample.idA, "10.0.0.1:3000", 6000))
                Sample.findValueFrame Sample.idA "10.0.0.1:3000" 6000
                eq_refl eq_refl)
      as [(stored & Hs & _ & Hh) | [Hexpired _]].
    + vm_compute. reflexivity.
    + rewrite Hh. cbn [snd].
      assert (Hstored : stored = mkEntry (JNum 42) 5000 3600000).
      { vm_compute in Hs. now injection Hs as <-. }
      rewrite Hstored. reflexivity.
    + exfalso.
      specialize (Hexpired (mkEntry (JNum 42) 5000 3600000)).
      cbn [ttl timestamp] in Hexpired.
      assert (3600000 <= 6000 - 5000); [| lia].
      apply Hexpired. vm_compute. reflexivity.
  - destruct (Hhandler Sample.node3_alpha
                (observe Sample.node3_alpha
                   (Sample.idA, "10.0.0.1:3000", 3605000))
                Sample.findValueFrame Sample.idA "10.0.0.1:3000" 3605000
                eq_refl eq_refl)
      as [(stored & Hs & Hfresh & _) | [_ Hh]].
    + vm_compute. reflexivity.
    + exfalso.
      assert (Hstored : stored = mkEntry (JNum 42) 5000 3600000).
      { vm_compute in Hs. now injection Hs as <-. }
      rewrite Hstored in Hfresh. cbn [ttl timestamp] in Hfresh. lia.
    + rewrite Hh. vm_compute. reflexivity.
Defined.

Lemma retrieve_miss_null_witness :
  fst (retrieve Sample.constHash Sample.allSent Sample.node3 "alpha" 6000)
  = JNull /\
  snd (retrieve Sample.constHash Sample.allSent Sample.node3 "alpha" 6000)
  = [mkDatagram "10.0.0.2:3000"
       (JObj [("type", JStr "FIND_VALUE"); ("key", JStr Sample.targetId);
              ("nodeId", JStr Sample.selfId)]);
     mkDatagram "10.0.0.1:3000"
       (JObj [("type", JStr "FIND_VALUE"); ("key", JStr Sample.targetId);
              ("nodeId", JStr Sample.selfId)]);
     mkDatagram "10.0.0.3:3000"
       (JObj [("type", JStr "FIND_VALUE"); ("key", JStr Sample.targetId);
              ("nodeId", JStr Sample.selfId)])].
Proof.
  destruct (retrieve_miss_null Sample.constHash Sample.allSent Sample.node3
              "alpha" 6000) as (Hnull & Hsent & _).
  - vm_compute. reflexivity.
  - split; [exact Hnull |]. rewrite Hsent. vm_compute. reflexivity.
Defined.

End StorageFacts.

(* ================================================================== *)
(** * Ephemeral keys *)
(* ================================================================== *)

Module IdentityFacts.
Import Js Identity Spec.

Section WithSign.

Variable crypto_sign : string -> string -> string.

Lemma new_capped (kp : KeyPair) (p : string) : capped (new kp p).
Proof. intros keyId e He. cbn in He. now rewrite lookup_empty in He. Qed.

(** What one signing operation does to the table of keys. *)
Lemma sign_outcome (self : AnonymousIdentity) (message keyId : string)
  (now : Z) (e : EphemeralKey) :
  ephemeralKeys self !! keyId = Some e ->
  exists self',
    signWithEphemeral crypto_sign self message keyId now =
      Normal (self',
              Buffer_toString_base64
                (crypto_sign message (privateKey (keyPair e)))) /\
    (forall other, other <> keyId ->
       ephemeralKeys self' !! other = ephemeralKeys self !! other) /\
    ((100 < uses e + 1 \/ 3600000 < now - created e) ->
       ephemeralKeys self' !! keyId = None) /\
    (uses e + 1 <= 100 -> now - created e <= 3600000 ->
       ephemeralKeys self' !! keyId =
         Some (mkEphemeral (keyPair e) (created e) (uses e + 1))).
Proof.
  intros He. unfold signWithEphemeral. rewrite He. cbv zeta.
  cbn [uses created keyPair].
  eexists. split; [reflexivity |].
  cbn [ephemeralKeys set_ephemeralKeys].
  destruct (Z.ltb_spec 100 (uses e + 1)) as [Hu | Hu];
    destruct (Z.ltb_spec 3600000 (now - created e)) as [Ht | Ht];
    cbn [orb]; repeat split;
    try (intros other Hne;
         rewrite ?lookup_delete_ne, lookup_insert_ne by congruence;
         reflexivity);
    try (intros; lia);
    try (intros; now rewrite lookup_delete_eq);
    try (intros; now rewrite lookup_insert_eq).
Qed.

Lemma step_capped (self : AnonymousIdentity) (op : Op) :
  capped self -> capped (step crypto_sign self op).
Proof.
  intros Hc. destruct op as [kp keyId now | message keyId now].
  - cbn [step generateEphemeralKey fst]. intros other e.
    cbn [ephemeralKeys set_ephemeralKeys].
    destruct (decide (keyId = other)) as [<- | Hne].
    + rewrite lookup_insert_eq. intros [= <-]. cbn. lia.
    + rewrite lookup_insert_ne by assumption. apply Hc.
  - cbn [step].
    destruct (ephemeralKeys self !! keyId) as [e |] eqn:He.
    + destruct (sign_outcome self message keyId now e He)
        as (self' & -> & Hother & Hdead & Hlive).
      intros other e'. destruct (decide (other = keyId)) as [-> | Hne].
      * destruct (Z.le_gt_cases (uses e + 1) 100) as [Hu | Hu];
          [destruct (Z.le_gt_cases (now - created e) 3600000) as [Ht | Ht] |].
        -- rewrite (Hlive Hu Ht). intros [= <-]. cbn. lia.
        -- rewrite Hdead by lia. discriminate.
        -- rewrite Hdead by lia. discriminate.
      * rewrite Hother by assumption. apply Hc.
    + unfold signWithEphemeral. rewrite He. assumption.
Qed.

Lemma run_capped (self : AnonymousIdentity) (ops : list Op) :
  capped self -> capped (run crypto_sign self ops).
Proof.
  revert self. induction ops as [| op ops IH]; intros self Hc; [assumption |].
  change (run crypto_sign self (op :: ops))
    with (run crypto_sign (step crypto_sign self op) ops).
  apply IH. now apply step_capped.
Qed.

(** C4, as amended.  In every state an identity reaches, a key that is
    held has at most 100 uses; a signing operation that names it signs and
    counts the use; the key is still held afterwards only if the count is at
    most 100 and it was created at most 3,600,000 ms before the operation,
    and it is removed otherwise. *)
Theorem ephemeral_key_bounds (kp : KeyPair) (p : string) (ops : list Op)
  (message keyId : string) (now : Z) (e : EphemeralKey) :
  ephemeralKeys (run crypto_sign (new kp p) ops) !! keyId = Some e ->
  uses e <= 100 /\
  exists self' signature,
    signWithEphemeral crypto_sign (run crypto_sign (new kp p) ops)
      message keyId now = Normal (self', signature) /\
    (forall e', ephemeralKeys self' !! keyId = Some e' ->
       uses e' <= 100 /\ now - created e' <= 3600000) /\
    ((100 < uses e + 1 \/ 3600000 < now - created e) ->
       ephemeralKeys self' !! keyId = None).
Proof.
  intros He. split.
  - exact (run_capped _ ops (new_capped kp p) keyId e He).
  - destruct (sign_outcome _ message keyId now e He)
      as (self' & Hsign & _ & Hdead & Hlive).
    exists self'. eexists. split; [exact Hsign |]. split; [| exact Hdead].
    intros e' He'.
    destruct (Z.le_gt_cases (uses e + 1) 100) as [Hu | Hu];
      [destruct (Z.le_gt_cases (now - created e) 3600000) as [Ht | Ht] |].
    + rewrite (Hlive Hu Ht) in He'. injection He' as <-. cbn. lia.
    + rewrite Hdead in He' by lia. discriminate.
    + rewrite Hdead in He' by lia. discriminate.
Qed.

End WithSign.

Lemma ephemeral_key_bounds_witness :
  exists self' signature,
    signWithEphemeral Sample.toySign
      (run Sample.toySign Sample.identity0
         [Generate Sample.keysEphemeral "k1" 0; Sign "hello" "k1" 10])
      "again" "k1" 3600001 = Normal (self', signature) /\
    ephemeralKeys self' !! "k1" = None.
Proof.
  destruct (ephemeral_key_bounds Sample.toySign Sample.keysLongTerm
              "5f3a9c0d1e2b4a6f8091a2b3c4d5e6f7"
              [Generate Sample.keysEphemeral "k1" 0; Sign "hello" "k1" 10]
              "again" "k1" 3600001
              (mkEphemeral Sample.keysEphemeral 0 1))
    as (_ & self' & signature & Hsign & _ & Hdead).
  - vm_compute. reflexivity.
  - exists self', signature. split; [exact Hsign |].
    apply Hdead. right. cbn. lia.
Defined.

(** C4, as stated, fails: a key created at time 0 and never used is
    accepted by a signing operation at time 3,600,001. *)
Lemma expired_key_still_signs :
  ~ (forall (ops : list Op) (message keyId : string) (now : Z)
            (e : EphemeralKey),
        ephemeralKeys (run Sample.toySign Sample.identity0 ops) !! keyId
          = Some e ->
        (exists r, signWithEphemeral Sample.toySign
                     (run Sample.toySign Sample.identity0 ops)
                     message keyId now = Normal r) ->
        uses e <= 100 /\ now - created e <= 3600000).
Proof.
  intros Hclaim.
  destruct (Hclaim [Generate Sample.keysEphemeral "k1" 0] "hello" "k1"
              3600001 (mkEphemeral Sample.keysEphemeral 0 0))
    as [_ Hage].
  - vm_compute. reflexivity.
  - eexists. vm_compute. reflexivity.
  - cbn in Hage. lia.
Qed.

End IdentityFacts.

(* ================================================================== *)
(** * Onion envelopes *)
(* ================================================================== *)

Module OnionFacts.
Import Js Onion.

Lemma length_append (a b : string) :
  String.length (a +:+ b) = (String.length a + String.length b)%nat.
Proof.
  induction a as [| c a IH]; [reflexivity |].
  change (String c a +:+ b) with (String c (a +:+ b)).
  cbn [String.length Nat.add]. f_equal. exact IH.
Qed.

(** Base64 writes four characters for every three bytes. *)
Lemma base64_length (buf : string) :
  (4 * String.length buf
   <= 3 * String.length (Buffer_toString_base64 buf))%nat.
Proof.
  assert (H : forall n buf, (String.length buf <= n)%nat ->
            (4 * String.length buf
             <= 3 * String.length (Buffer_toString_base64 buf))%nat).
  { clear buf. induction n as [| n IH]; intros buf Hn.
    - destruct buf; [cbn; lia | cbn in Hn; lia].
    - destruct buf as [| a [| b [| c rest]]];
        cbn [Buffer_toString_base64 String.length]; try lia.
      cbn [String.length] in Hn. specialize (IH rest ltac:(lia)). lia. }
  apply (H (String.length buf)). lia.
Qed.

Lemma escapeChar_length (c : ascii) : (1 <= String.length (escapeChar c))%nat.
Proof.
  unfold escapeChar.
  repeat case_match; rewrite ?length_append; cbn [String.length]; lia.
Qed.

Lemma escape_length (s : string) :
  (String.length s <= String.length (escape s))%nat.
Proof.
  induction s as [| c s IH]; [cbn; lia |].
  cbn [escape String.length]. rewrite length_append.
  pose proof (escapeChar_length c). lia.
Qed.

Lemma quote_length (s : string) :
  (String.length s <= String.length (quote s))%nat.
Proof.
  unfold quote. cbn [String.length]. rewrite length_append.
  pose proof (escape_length s). lia.
Qed.

(** The serialisation of an encrypted layer is longer than its
    [encrypted] field. *)
Lemma stringify_layer (encrypted tag : string) :
  exists text,
    stringify (JObj [("encrypted", JStr encrypted); ("nextHop", JStr tag)])
      = Some text /\
    (String.length encrypted <= String.length text)%nat.
Proof.
  eexists. split; [reflexivity |].
  cbn. rewrite !length_append.
  pose proof (quote_length encrypted). lia.
Qed.

Section WithRSA.

Variable publicEncrypt : string -> string -> option string.
Variable rnd : Random.

(** RSA with a 2048-bit modulus, the only keys the program generates: a
    ciphertext has 256 bytes, and no padding mode takes a plaintext longer
    than the modulus (the default, OAEP over SHA-1, stops at
    256 - 2 * 20 - 2 = 214 bytes). *)
Hypothesis ciphertext_size :
  forall key data encrypted,
    publicEncrypt key data = Some encrypted ->
    String.length encrypted = 256%nat.
Hypothesis plaintext_limit :
  forall key data,
    (256 < String.length data)%nat -> publicEncrypt key data = None.

Lemma encryptLayer_shape (data : JsValue) (key tag : string) :
  (exists e, encryptLayer publicEncrypt data key tag = Throw e) \/
  (exists encrypted,
      String.length encrypted = 256%nat /\
      encryptLayer publicEncrypt data key tag =
      Normal (JObj [("encrypted", JStr (Buffer_toString_base64 encrypted));
                    ("nextHop", JStr tag)])).
Proof.
  unfold encryptLayer. destruct (stringify data) as [text |]; [| eauto].
  destruct (publicEncrypt key text) as [encrypted |] eqn:He; [| eauto].
  right. exists encrypted. split; [| reflexivity].
  eapply ciphertext_size; eassumption.
Qed.

(** A layer that is already encrypted does not fit into another one. *)
Lemma encryptLayer_nested (encrypted tag key tag' : string) :
  String.length encrypted = 256%nat ->
  exists e,
    encryptLayer publicEncrypt
      (JObj [("encrypted", JStr (Buffer_toString_base64 encrypted));
             ("nextHop", JStr tag)]) key tag' = Throw e.
Proof.
  intros Hlen. unfold encryptLayer.
  destruct (stringify_layer (Buffer_toString_base64 encrypted) tag)
    as (text & -> & Htext).
  pose proof (base64_length encrypted) as Hb.
  rewrite plaintext_limit by lia. eauto.
Qed.

(** A failed decryption is reported as [Error('Decryption failed')]. *)
Lemma decryptLayer_wrong_key
  (privateDecrypt : string -> string -> option string)
  (Buffer_from_base64 : string -> string)
  (Buffer_from_object : JsValue -> option string)
  (JSON_parse : string -> option JsValue)
  (packet : JsValue) (encrypted key : string) :
  getProp packet "encrypted" = Normal (JStr encrypted) ->
  privateDecrypt key (Buffer_from_base64 encrypted) = None ->
  decryptLayer privateDecrypt Buffer_from_base64 Buffer_from_object JSON_parse packet key
  = Throw (Error "Decryption failed").
Proof. intros Hp Hd. unfold decryptLayer. now rewrite Hp, Hd. Qed.

(** C3, on the code.  Over a circuit of two hops or more
    [createOnionPacket] throws: the envelope made for the last hop, a
    256-byte ciphertext in base64, is longer than what the public-key
    primitive encrypts, so the layer for the hop before it cannot be
    built and no packet exists to be peeled. *)
Theorem createOnionPacket_two_hops_throw (message : JsValue)
  (circuit : list Hop) (now : Z) :
  (2 <= length circuit)%nat ->
  exists e,
    createOnionPacket publicEncrypt rnd message circuit now = Throw e.
Proof.
  intros Hlen. destruct circuit as [| h0 [| h1 rest]]; cbn in Hlen; try lia.
  unfold createOnionPacket. cbv zeta. cbn [wrapFrom].
  set (packet := JObj [("payload", message); ("timestamp", JNum now)]).
  destruct (wrapFrom publicEncrypt rnd packet 2 rest) as [inner | e];
    cbn [bind]; [| eauto].
  destruct (encryptLayer_shape inner (publicKey h1) (layerTag rnd 1))
    as [[e ->] | (encrypted & Hsize & ->)]; cbn [bind]; [eauto |].
  now apply encryptLayer_nested.
Qed.

(** C10, as amended.  Over the empty circuit [createOnionPacket] returns
    the record [{ payload, timestamp }] itself: no layer is applied, the
    JSON text of the packet carries the JSON text of the message as it is,
    and [buildCircuit] over no resolved node records such an empty
    circuit. *)
Theorem createOnionPacket_empty (self : OnionRouter) (message : JsValue)
  (now : Z) :
  createOnionPacket publicEncrypt rnd message [] now
  = Normal (JObj [("payload", message); ("timestamp", JNum now)]) /\
  stringify (JObj [("payload", message); ("timestamp", JNum now)])
  = Some (match stringify message with
          | Some text =>
              "{" +:+ ((quote "payload" +:+ ":" +:+ text) +:+ "," +:+
                       quote "timestamp" +:+ ":" +:+ decimal now) +:+ "}"
          | None => "{" +:+ (quote "timestamp" +:+ ":" +:+ decimal now) +:+ "}"
          end) /\
  circuits (fst (buildCircuit rnd self [])) !! snd (buildCircuit rnd self [])
  = Some [].
Proof.
  split; [reflexivity |]. split.
  - cbn [stringify]. destruct (stringify message) as [text |]; reflexivity.
  - unfold buildCircuit. cbn [fst snd circuits resolveFrom].
    apply lookup_insert_eq.
Qed.

End WithRSA.

Lemma padding_length (n : nat) : String.length (Sample.padding n) = n.
Proof. induction n as [| n IH]; cbn; [reflexivity | now rewrite IH]. Qed.

Lemma toyEncrypt_size (key data encrypted : string) :
  Sample.toyEncrypt key data = Some encrypted ->
  String.length encrypted = 256%nat.
Proof.
  unfold Sample.toyEncrypt.
  destruct (Nat.leb_spec (String.length data) 214); [| discriminate].
  intros [= <-]. rewrite length_append, padding_length. lia.
Qed.

Lemma toyEncrypt_limit (key data : string) :
  (256 < String.length data)%nat -> Sample.toyEncrypt key data = None.
Proof.
  intros Hlen. unfold Sample.toyEncrypt.
  destruct (Nat.leb_spec (String.length data) 214); [lia | reflexivity].
Qed.

(** With one hop and a short message the envelope is built. *)
Example one_hop_wraps :
  exists encrypted,
    createOnionPacket Sample.toyEncrypt Sample.toyRandom (JStr "hello")
      [mkHop Sample.idA "pub-a" "10.0.0.1:3000"] 1700000000000
    = Normal (JObj [("encrypted", JStr encrypted);
                    ("nextHop", JStr "000102030405060708090a0b0c0d0e0f")]).
Proof. eexists. vm_compute. reflexivity. Qed.

Lemma createOnionPacket_two_hops_throw_witness :
  exists e,
    createOnionPacket Sample.toyEncrypt Sample.toyRandom (JStr "hello")
      Sample.circuit3 1700000000000 = Throw e.
Proof.
  apply (createOnionPacket_two_hops_throw Sample.toyEncrypt Sample.toyRandom
           toyEncrypt_size toyEncrypt_limit).
  cbn. lia.
Defined.

End OnionFacts.

(* ================================================================== *)
(** * The overlay node *)
(* ================================================================== *)

Module P2PFacts.
Import Js P2P.

Section WithEnvironment.

Variable publicEncrypt : string -> string -> option string.
Variable privateDecrypt : string -> string -> option string.
Variable Buffer_from_base64 : string -> string.
Variable Buffer_from_object : JsValue -> option string.
Variable JSON_parse : string -> option JsValue.
Variable rnd : Onion.Random.
Variable connects : string -> bool.

Lemma processOnionPacket_decrypted (self : AnonymousP2PNode)
  (message packet decrypted nextHop payload : JsValue) (peerId : string) :
  getProp message "packet" = Normal packet ->
  Onion.decryptLayer privateDecrypt Buffer_from_base64 Buffer_from_object JSON_parse packet
    (Identity.privateKey (Identity.identityKeyPair (identity self)))
  = Normal decrypted ->
  getProp decrypted "nextHop" = Normal nextHop ->
  getProp decrypted "payload" = Normal payload ->
  processOnionPacket privateDecrypt Buffer_from_base64 Buffer_from_object JSON_parse
    self message peerId
  = if truthy nextHop
    then [ConsoleError
            (TypeError "this.forwardOnionPacket is not a function")]
    else [Emit "anonymousMessage" payload].
Proof.
  intros Hpacket Hdec Hhop Hpayload.
  unfold processOnionPacket, processOnionPacket_try.
  rewrite Hpacket. cbn [bind]. rewrite Hdec. cbn [bind].
  rewrite Hhop. cbn [bind]. destruct (truthy nextHop).
  - reflexivity.
  - rewrite Hpayload. reflexivity.
Qed.

(** C1, on the code.  For an ONION_PACKET frame whose packet decrypts:
    when the plaintext has a truthy [nextHop], the handler calls a method
    the class does not have, the [TypeError] is caught and logged, and no
    connection is opened and nothing is written; when it has none, the
    [anonymousMessage] event is emitted with the payload. *)
Theorem processOnionPacket_forward_throws (self : AnonymousP2PNode)
  (message packet decrypted nextHop payload : JsValue) (peerId : string) :
  getProp message "type" = Normal (JStr "ONION_PACKET") ->
  getProp message "packet" = Normal packet ->
  Onion.decryptLayer privateDecrypt Buffer_from_base64 Buffer_from_object JSON_parse packet
    (Identity.privateKey (Identity.identityKeyPair (identity self)))
  = Normal decrypted ->
  getProp decrypted "nextHop" = Normal nextHop ->
  getProp decrypted "payload" = Normal payload ->
  processMessage privateDecrypt Buffer_from_base64 Buffer_from_object JSON_parse
    self message peerId
  = Normal (if truthy nextHop
            then [ConsoleError
                    (TypeError "this.forwardOnionPacket is not a function")]
            else [Emit "anonymousMessage" payload]).
Proof.
  intros Htype Hpacket Hdec Hhop Hpayload.
  unfold processMessage. rewrite Htype. cbn [bind].
  cbn [String.eqb Ascii.eqb Bool.eqb]. f_equal.
  eapply processOnionPacket_decrypted; eassumption.
Qed.

Lemma resolveFrom_ids (i : nat) (targetNodes : list string) :
  map Onion.id (Onion.resolveFrom rnd i targetNodes) = targetNodes.
Proof.
  revert i. induction targetNodes as [| t ts IH]; intros i; [reflexivity |].
  cbn [Onion.resolveFrom Onion.getNodeInfo map Onion.id]. now rewrite IH.
Qed.


End WithEnvironment.

Lemma processOnionPacket_forward_throws_witness :
  processMessage Sample.toyDecrypt Sample.toyBase64Decode Sample.toyBufferFrom Sample.toyParse
    Sample.p2pSeen Sample.onionFrame "peer-1"
  = Normal [ConsoleError
              (TypeError "this.forwardOnionPacket is not a function")].
Proof.
  apply (processOnionPacket_forward_throws
           Sample.toyDecrypt Sample.toyBase64Decode Sample.toyBufferFrom Sample.toyParse
           Sample.p2pSeen Sample.onionFrame
           (JObj [("encrypted", JStr "QUJD");
                  ("nextHop", JStr "000102030405060708090a0b0c0d0e0f")])
           Sample.forwardingLayer (JStr "10.0.0.7:3000") JUndefined "peer-1");
    reflexivity.
Defined.

(** C10, as stated, fails on its last clause: with an empty routing table
    the circuit has no hop, [createOnionPacket] returns the plain record,
    and [sendAnonymousMessage] then throws on [circuit[0].address] before
    any connection is opened, so nothing leaves the node. *)
Lemma zero_hop_message_not_sent :
  Onion.createOnionPacket Sample.toyEncrypt Sample.toyRandom
    (JStr "hello") [] 1700000000000
  = Normal (JObj [("payload", JStr "hello");
                  ("timestamp", JNum 1700000000000)]) /\
  snd (fst (sendAnonymousMessage Sample.toyEncrypt Sample.toyRandom
              Sample.allConnect Sample.p2pEmpty (JStr "hello")
              "target-pseudonym" 1700000000000))
  = Throw (TypeError "Cannot read properties of undefined") /\
  snd (sendAnonymousMessage Sample.toyEncrypt Sample.toyRandom
         Sample.allConnect Sample.p2pEmpty (JStr "hello")
         "target-pseudonym" 1700000000000)
  = [].
Proof. repeat split; vm_compute; reflexivity. Qed.

End P2PFacts.

(* ================================================================== *)
(** * More on the routing table *)
(* ================================================================== *)

Module TableFacts.
Import Js JsFacts Kademlia Spec KademliaFacts ClosestFacts.

(** ** The XOR distance *)

Lemma xorBuffers_nil (b : list Z) : xorBuffers [] b = [].
Proof. reflexivity. Qed.

Lemma xorBuffers_length (a b : list Z) :
  length (xorBuffers a b) = length a.
Proof. unfold xorBuffers. now rewrite length_map, length_seq. Qed.

Lemma xorBuffers_comm (a b : list Z) :
  length a = length b -> xorBuffers a b = xorBuffers b a.
Proof.
  revert b. induction a as [| x a IH]; intros [| y b] Hlen;
    try discriminate; [reflexivity |].
  injection Hlen as Hlen.
  now rewrite !xorBuffers_cons, Z.lxor_comm, (IH b Hlen).
Qed.

Lemma xorBuffers_involutive (a b : list Z) :
  length a = length b -> xorBuffers a (xorBuffers a b) = b.
Proof.
  revert b. induction a as [| x a IH]; intros [| y b] Hlen;
    try discriminate; [reflexivity |].
  injection Hlen as Hlen.
  rewrite !xorBuffers_cons, (IH b Hlen).
  now rewrite <- Z.lxor_assoc, Z.lxor_nilpotent, Z.lxor_0_l.
Qed.

Lemma xorBuffers_self (a : list Z) :
  xorBuffers a a = repeat 0 (length a).
Proof.
  induction a as [| x a IH]; [reflexivity |].
  now rewrite xorBuffers_cons, IH, Z.lxor_nilpotent.
Qed.

Lemma beZ_inj (a b : list Z) :
  bytes a -> bytes b -> length a = length b -> beZ a = beZ b -> a = b.
Proof.
  intros Ha. revert b. induction Ha as [| x a Hx Ha IH]; intros b Hb Hlen He.
  - destruct b; [reflexivity | discriminate].
  - destruct Hb as [| y b Hy Hb]; [discriminate |].
    injection Hlen as Hlen. rewrite !beZ_cons, <- Hlen in He.
    pose proof (beZ_bound a Ha) as Ba. pose proof (beZ_bound b Hb) as Bb.
    rewrite <- Hlen in Bb.
    set (P := 256 ^ Z.of_nat (length a)) in *.
    assert (x = y) by nia. subst y.
    f_equal. apply IH; [assumption | assumption | lia].
Qed.

(** X1.  Between identifiers of the same byte length [xorDistance] is
    symmetric, and XOR-ing a distance with one of the two identifiers gives
    back the bytes of the other. *)
Theorem xorDistance_symmetric (a b : string) :
  length (Buffer_from_hex a) = length (Buffer_from_hex b) ->
  xorDistance a b = xorDistance b a /\
  Buffer_from_hex (xorDistance a (xorDistance a b)) = Buffer_from_hex b.
Proof.
  intros Hlen. split.
  - unfold xorDistance. cbv zeta. now rewrite (xorBuffers_comm _ _ Hlen).
  - rewrite xorDistance_decoded. unfold xorOf.
    rewrite xorDistance_decoded. unfold xorOf.
    now apply xorBuffers_involutive.
Qed.

Lemma xorDistance_symmetric_witness :
  xorDistance Sample.idA Sample.idB = xorDistance Sample.idB Sample.idA /\
  Buffer_from_hex (xorDistance Sample.idA (xorDistance Sample.idA Sample.idB))
  = Buffer_from_hex Sample.idB.
Proof. apply xorDistance_symmetric. vm_compute. reflexivity. Defined.

(** X2.  Between identifiers of the same byte length the distance is zero
    exactly when the two decode to the same bytes; the identifiers
    themselves may differ, as hex digits are read in either case. *)
Theorem xorDistance_zero_iff (a b : string) :
  length (Buffer_from_hex a) = length (Buffer_from_hex b) ->
  (beZ (Buffer_from_hex (xorDistance a b)) = 0
   <-> Buffer_from_hex a = Buffer_from_hex b).
Proof.
  intros Hlen. rewrite xorDistance_decoded. unfold xorOf.
  rewrite beZ_xor by (try apply Buffer_from_hex_bytes; assumption).
  rewrite Z.lxor_eq_0_iff. split.
  - apply beZ_inj; try apply Buffer_from_hex_bytes. assumption.
  - now intros ->.
Qed.

Lemma xorDistance_zero_iff_witness :
  beZ (Buffer_from_hex (xorDistance Sample.idLower Sample.idUpper)) = 0
  /\ Sample.idLower <> Sample.idUpper.
Proof.
  split; [| discriminate].
  apply (xorDistance_zero_iff Sample.idLower Sample.idUpper).
  - vm_compute. reflexivity.
  - vm_compute. reflexivity.
Defined.

(** ** [addNode]: when it throws, and where the contact lands *)

Lemma getBucketIndex_bound (n : KademliaNode) (x : string) :
  (getBucketIndex n x < 8 * length (Buffer_from_hex (nodeId n)))%nat \/
  getBucketIndex n x = 159%nat.
Proof.
  destruct (getBucketIndex_msb n x) as [(Hlt & _) | (_ & He)].
  - left. now rewrite xorOf_length in Hlt.
  - now right.
Qed.

(** X3.  A node whose own identifier has at most 20 bytes never fails to
    add a contact to its 160 buckets, whatever the contact's identifier. *)
Theorem addNode_total (n : KademliaNode) (x e : string) (t : Z) :
  (length (Buffer_from_hex (nodeId n)) <= 20)%nat ->
  length (buckets n) = 160%nat ->
  exists n', addNode n x e t = Normal n' /\
             length (buckets n') = 160%nat /\
             (length (Buffer_from_hex (nodeId n')) <= 20)%nat.
Proof.
  intros Hid Hlen.
  assert (Hidx : (getBucketIndex n x < length (buckets n))%nat)
    by (destruct (getBucketIndex_bound n x); lia).
  apply lookup_lt_is_Some in Hidx. destruct Hidx as [bucket Hb].
  destruct (addNode_step n x e t bucket Hb) as (removed & kept & Heq & _).
  eexists. split; [exact Heq |].
  cbn [buckets set_buckets nodeId]. rewrite length_insert. auto.
Qed.

Lemma addNode_total_witness :
  exists n', addNode Sample.node3 "not hex at all" "10.0.0.4:3000" 7000
             = Normal n' /\
             length (buckets n') = 160%nat /\
             (length (Buffer_from_hex (nodeId n')) <= 20)%nat.
Proof.
  apply addNode_total.
  - vm_compute. lia.
  - vm_compute. reflexivity.
Defined.

(** X4.  When the index computed for a sender lies outside the bucket
    array, as it can for a node whose own identifier is longer than 20
    bytes, [addNode] throws, and [handleMessage] then drops the frame: the
    node is unchanged and nothing is answered, not even to a PING. *)
Theorem addNode_out_of_range (n : KademliaNode) (msg : Frame)
  (x senderAddress : string) (now : Z) :
  (length (buckets n) <= getBucketIndex n x)%nat ->
  f_nodeId msg = Some x ->
  addNode n x senderAddress now
    = Throw (TypeError "Cannot read properties of undefined") /\
  handleMessage n msg senderAddress now = (n, []).
Proof.
  intros Hout Hid.
  assert (Hb : buckets n !! getBucketIndex n x = None)
    by now apply lookup_ge_None.
  assert (Hadd : addNode n x senderAddress now
                 = Throw (TypeError "Cannot read properties of undefined")).
  { unfold addNode. cbv zeta. now rewrite Hb. }
  split; [exact Hadd |].
  unfold handleMessage. now rewrite Hid, Hadd.
Qed.

Lemma addNode_out_of_range_witness :
  addNode Sample2.nodeLong Sample2.longOther "10.0.0.5:3000" 100
    = Throw (TypeError "Cannot read properties of undefined") /\
  handleMessage Sample2.nodeLong Sample2.pingFrame "10.0.0.5:3000" 100
    = (Sample2.nodeLong, []).
Proof.
  apply addNode_out_of_range.
  - vm_compute. lia.
  - reflexivity.
Defined.

Lemma pop_cons {A : Type} (c : A) (l : list A) :
  l <> [] -> pop (c :: l) = c :: pop l.
Proof. intros Hl. unfold pop. destruct l; [contradiction | reflexivity]. Qed.

Lemma pop_incl {A : Type} (l : list A) (c : A) : In c (pop l) -> In c l.
Proof.
  unfold pop. induction l as [| y l IH]; [intros [] |].
  destruct l as [| z l]; [intros [] |].
  cbn [removelast]. intros [<- | Hc]; [now left | right; now apply IH].
Qed.

(** The observed contact is at the head of its bucket. *)
Lemma addNode_head (n : KademliaNode) (x e : string) (t : Z)
  (bucket : list Contact) :
  buckets n !! getBucketIndex n x = Some bucket ->
  (1 <= k n)%nat ->
  exists rest,
    addNode n x e t =
      Normal (set_buckets n
                (<[getBucketIndex n x := mkContact x e t :: rest]>
                   (buckets n))) /\
    forall c, In c rest ->
      In c bucket /\ (List.NoDup (map id bucket) -> id c <> x).
Proof.
  intros Hb Hk. rewrite (addNode_at n x e t _ bucket eq_refl Hb). cbv zeta.
  set (p := fun node => String.eqb (id node) x).
  set (removed := match findIndex p bucket with
                  | Some j => delete j bucket
                  | None => bucket
                  end).
  assert (Hremoved : forall c, In c removed ->
            In c bucket /\ (List.NoDup (map id bucket) -> id c <> x)).
  { subst removed. destruct (findIndex p bucket) as [j |] eqn:Hf.
    - destruct (findIndex_Some _ _ _ Hf)
        as (pre & old & post & Hsplit & Hold & Hpre & ->).
      subst p. cbv beta in Hold, Hpre. apply String.eqb_eq in Hold.
      intros c Hc. apply in_app_iff in Hc. split.
      + rewrite Hsplit. apply in_app_iff.
        destruct Hc; [left | right; right]; assumption.
      + intros Hnd. destruct Hc as [Hc | Hc].
        * apply String.eqb_neq. now apply Hpre.
        * rewrite Hsplit, map_app in Hnd. cbn [map] in Hnd.
          apply List.NoDup_remove_2 in Hnd. rewrite Hold in Hnd.
          intros He. apply Hnd. apply in_app_iff. right.
          rewrite <- He. now apply in_map.
    - intros c Hc. split; [assumption |]. intros _.
      apply String.eqb_neq. apply (findIndex_None _ _ Hf c Hc). }
  destruct (Nat.ltb_spec (k n) (length (mkContact x e t :: removed)))
    as [Hover | Hfit].
  - exists (pop removed). split.
    + rewrite pop_cons; [reflexivity |].
      intros ->. cbn in Hover. lia.
    + intros c Hc. apply Hremoved. now apply pop_incl.
  - exists removed. split; [reflexivity | exact Hremoved].
Qed.

(** X5.  An identifier that decodes to the node's own bytes, its own
    identifier first of all, has bucket index 159, and [addNode] files it
    there like any other contact: the node does not refuse itself. *)
Theorem addNode_own_identifier (n : KademliaNode) (x e : string) (t : Z) :
  Buffer_from_hex x = Buffer_from_hex (nodeId n) ->
  (159 < length (buckets n))%nat ->
  (1 <= k n)%nat ->
  getBucketIndex n x = 159%nat /\
  exists n' rest,
    addNode n x e t = Normal n' /\
    buckets n' !! 159%nat = Some (mkContact x e t :: rest).
Proof.
  intros Hx Hlen Hk.
  assert (Hidx : getBucketIndex n x = 159%nat).
  { unfold getBucketIndex. cbv zeta. rewrite xorDistance_decoded.
    unfold xorOf. rewrite Hx, xorBuffers_self.
    assert (Hz : forall m i, scanBuffer (repeat 0 m) i = None).
    { induction m as [| m IH]; intros i; [reflexivity |].
      cbn [repeat scanBuffer].
      change (firstSetBit 0) with (@None nat). apply IH. }
    now rewrite Hz. }
  split; [exact Hidx |].
  assert (Hsome : is_Some (buckets n !! getBucketIndex n x))
    by (apply lookup_lt_is_Some; lia).
  destruct Hsome as [bucket Hb].
  destruct (addNode_head n x e t bucket Hb Hk) as (rest & Heq & _).
  eexists. exists rest. split; [exact Heq |].
  cbn [buckets set_buckets]. rewrite <- Hidx.
  apply list_lookup_insert_eq. eapply lookup_lt_Some; eassumption.
Qed.

Lemma addNode_own_identifier_witness :
  getBucketIndex Sample.node3 Sample.selfId = 159%nat /\
  exists n' rest,
    addNode Sample.node3 Sample.selfId "10.0.0.6:3000" 8000 = Normal n' /\
    buckets n' !! 159%nat
    = Some (mkContact Sample.selfId "10.0.0.6:3000" 8000 :: rest).
Proof.
  apply addNode_own_identifier.
  - reflexivity.
  - vm_compute. lia.
  - vm_compute. lia.
Defined.

(** X6.  In a table that satisfies the invariant and has [k >= 1], the
    observed contact becomes the first entry of its bucket, with the
    address and the time of this observation; the entries after it come
    from the bucket as it was, and none of them has the observed
    identifier, so an earlier address of the contact is gone. *)
Theorem addNode_refreshes (n : KademliaNode) (x e : string) (t : Z)
  (bucket : list Contact) :
  RoutingInv n ->
  buckets n !! getBucketIndex n x = Some bucket ->
  (1 <= k n)%nat ->
  exists n' rest,
    addNode n x e t = Normal n' /\
    buckets n' !! getBucketIndex n x = Some (mkContact x e t :: rest) /\
    forall c, In c rest -> In c bucket /\ id c <> x.
Proof.
  intros Hinv Hb Hk.
  destruct (addNode_head n x e t bucket Hb Hk) as (rest & Heq & Hrest).
  destruct (Hinv _ _ Hb) as (_ & Hnd & _).
  eexists. exists rest. split; [exact Heq |]. split.
  - cbn [buckets set_buckets].
    apply list_lookup_insert_eq. eapply lookup_lt_Some; eassumption.
  - intros c Hc. destruct (Hrest c Hc) as [Hin Hne]. auto.
Qed.

Lemma addNode_refreshes_witness :
  exists n' rest,
    addNode Sample.node3 Sample.idA "192.168.0.9:4000" 9000 = Normal n' /\
    buckets n' !! 0%nat
    = Some (mkContact Sample.idA "192.168.0.9:4000" 9000 :: rest) /\
    forall c, In c rest ->
      In c [mkContact Sample.idC "10.0.0.3:3000" 3000;
            mkContact Sample.idB "10.0.0.2:3000" 2000;
            mkContact Sample.idA "10.0.0.1:3000" 1000]
      /\ id c <> Sample.idA.
Proof.
  apply (addNode_refreshes Sample.node3 Sample.idA "192.168.0.9:4000" 9000).
  - apply observeAll_inv, new_inv.
  - vm_compute. reflexivity.
  - vm_compute. lia.
Defined.

End TableFacts.

(* ================================================================== *)
(** * The routing-table invariant on NodeIDs *)
(* ================================================================== *)

Module InvariantFacts.
Import Js JsFacts Kademlia Spec KademliaFacts ClosestFacts TableFacts.

(** ** Bits of a buffer and bits of the integer it encodes *)

Lemma pow256 (m : nat) : 256 ^ Z.of_nat m = 2 ^ (8 * Z.of_nat m).
Proof. rewrite Z.pow_mul_r by lia. reflexivity. Qed.

Lemma bitAt_testbit (d : list Z) (p : nat) :
  bytes d -> (p < 8 * length d)%nat ->
  bitAt d p = Z.testbit (beZ d) (8 * Z.of_nat (length d) - 1 - Z.of_nat p).
Proof.
  intros Hd. revert p. induction Hd as [| x a Hx Ha IH]; intros p Hp.
  - cbn in Hp. lia.
  - cbn [length] in Hp. rewrite beZ_cons, pow256.
    pose proof (beZ_bound a Ha) as Ba. rewrite pow256 in Ba.
    rewrite testbit_split by (cbn [length]; lia).
    cbn [length]. rewrite Nat2Z.inj_succ.
    destruct (Nat.lt_ge_cases p 8) as [Hlow | Hhigh].
    + replace (8 * Z.succ (Z.of_nat (length a)) - 1 - Z.of_nat p
               <? 8 * Z.of_nat (length a)) with false
        by (symmetry; apply Z.ltb_ge; lia).
      rewrite bitAt_head by assumption. f_equal. lia.
    + replace (8 * Z.succ (Z.of_nat (length a)) - 1 - Z.of_nat p
               <? 8 * Z.of_nat (length a)) with true
        by (symmetry; apply Z.ltb_lt; lia).
      replace p with (8 + (p - 8))%nat at 1 by lia.
      rewrite bitAt_tail, IH by lia. f_equal. lia.
Qed.

(** The position the scan of [getBucketIndex] stops at, read on the
    integer. *)
Lemma msbIndex_msbOf (d : list Z) (i : nat) :
  bytes d -> msbIndex d i -> msbOf (8 * length d) (beZ d) i.
Proof.
  intros Hd Hmsb. pose proof (beZ_bound d Hd) as Hb. rewrite pow256 in Hb.
  destruct Hmsb as [(Hlt & Hset & Hclear) | (Hclear & ->)].
  - right. rewrite bitAt_testbit in Hset by assumption.
    assert (Hpos : 0 < beZ d).
    { destruct (Z.eq_dec (beZ d) 0) as [Hz | Hnz]; [| lia].
      rewrite Hz, Z.bits_0 in Hset. discriminate. }
    split; [assumption |].
    pose proof (Z.bit_log2 (beZ d) Hpos) as Htop.
    assert (Hlog : Z.log2 (beZ d) < 8 * Z.of_nat (length d))
      by (apply Z.log2_lt_pow2; lia).
    pose proof (Z.log2_nonneg (beZ d)) as Hnn.
    destruct (Z.lt_trichotomy (Z.log2 (beZ d))
                (8 * Z.of_nat (length d) - 1 - Z.of_nat i))
      as [Hbelow | [Heq | Habove]].
    + rewrite Z.bits_above_log2 in Hset by lia. discriminate.
    + lia.
    + exfalso.
      set (p := Z.to_nat (8 * Z.of_nat (length d) - 1 - Z.log2 (beZ d))).
      assert (Hp : (p < i)%nat) by (subst p; lia).
      specialize (Hclear p Hp).
      rewrite bitAt_testbit in Hclear by (try assumption; lia).
      replace (8 * Z.of_nat (length d) - 1 - Z.of_nat p)
        with (Z.log2 (beZ d)) in Hclear by (subst p; lia).
      congruence.
  - left. split; [| reflexivity].
    destruct (Z.eq_dec (beZ d) 0) as [Hz | Hnz]; [assumption | exfalso].
    assert (Hpos : 0 < beZ d) by lia.
    pose proof (Z.bit_log2 (beZ d) Hpos) as Htop.
    assert (Hlog : Z.log2 (beZ d) < 8 * Z.of_nat (length d))
      by (apply Z.log2_lt_pow2; lia).
    pose proof (Z.log2_nonneg (beZ d)) as Hnn.
    set (p := Z.to_nat (8 * Z.of_nat (length d) - 1 - Z.log2 (beZ d))).
    assert (Hp : (p < 8 * length d)%nat) by (subst p; lia).
    specialize (Hclear p Hp).
    rewrite bitAt_testbit in Hclear by assumption.
    replace (8 * Z.of_nat (length d) - 1 - Z.of_nat p)
      with (Z.log2 (beZ d)) in Hclear by (subst p; lia).
    congruence.
Qed.

(** The bucket index, for two identifiers of [L] bytes: the position of
    the highest set bit of the XOR of the two integers. *)
Lemma getBucketIndex_msbOf (n : KademliaNode) (x : string) (L : nat) :
  length (Buffer_from_hex (nodeId n)) = L ->
  length (Buffer_from_hex x) = L ->
  msbOf (8 * L) (Z.lxor (nodeIdZ (nodeId n)) (nodeIdZ x)) (getBucketIndex n x).
Proof.
  intros Hself Hx.
  pose proof (msbIndex_msbOf _ _ (xorOf_bytes (nodeId n) x)
                (getBucketIndex_msb n x)) as Hmsb.
  rewrite xorOf_length, Hself in Hmsb.
  unfold xorOf in Hmsb. rewrite beZ_xor in Hmsb;
    [exact Hmsb | apply Buffer_from_hex_bytes | apply Buffer_from_hex_bytes
    | congruence].
Qed.

(** ** Distinct strings, distinct NodeIDs *)

Lemma canonical_inj (a b : string) :
  canonical a -> canonical b ->
  Buffer_from_hex a = Buffer_from_hex b -> a = b.
Proof. unfold canonical. intros Ha Hb He. rewrite <- Ha, <- Hb. now f_equal. Qed.

Lemma NoDup_decoded (bucket : list Contact) :
  (forall c, In c bucket -> canonical (id c)) ->
  List.NoDup (map id bucket) ->
  List.NoDup (map (fun c => Buffer_from_hex (id c)) bucket).
Proof.
  induction bucket as [| c bucket IH]; intros Hcan Hnd; [constructor |].
  cbn [map] in *. apply List.NoDup_cons_iff in Hnd. destruct Hnd as [Hnotin Hnd].
  constructor.
  - intros Hin. apply Hnotin. apply in_map_iff in Hin.
    destruct Hin as (c' & He & Hc'). apply in_map_iff. exists c'.
    split; [| assumption].
    apply canonical_inj; [apply Hcan; now right | apply Hcan; now left |].
    exact He.
  - apply IH; [| assumption]. intros c' Hc'. apply Hcan. now right.
Qed.

(** C6, as amended.  After any sequence of observations from the empty
    table, every bucket holds at most [k] entries and the identifier
    strings in it are pairwise distinct; the NodeIDs they decode to are
    pairwise distinct when the identifiers are written in canonical hex;
    and for a contact of bucket [i] whose identifier has as many bytes as
    the node's own, [i] is the position of the most significant bit in which
    the two NodeIDs differ, and 159 when they do not differ. *)
Theorem routing_invariant (n0 : KademliaNode)
  (os : list (string * string * Z)) (i : nat) (bucket : list Contact) :
  buckets n0 = replicate 160 [] ->
  buckets (observeAll n0 os) !! i = Some bucket ->
  (length bucket <= k n0)%nat /\
  List.NoDup (map id bucket) /\
  ((forall c, In c bucket -> canonical (id c)) ->
   List.NoDup (map (fun c => Buffer_from_hex (id c)) bucket)) /\
  (forall c L,
      In c bucket ->
      length (Buffer_from_hex (nodeId n0)) = L ->
      length (Buffer_from_hex (id c)) = L ->
      msbOf (8 * L) (Z.lxor (nodeIdZ (nodeId n0)) (nodeIdZ (id c))) i).
Proof.
  intros Hempty Hb.
  assert (Hinv0 : RoutingInv n0).
  { intros j b0 Hj. rewrite Hempty in Hj.
    apply lookup_replicate in Hj. destruct Hj as [-> _].
    repeat split; [cbn; lia | constructor | intros c []]. }
  destruct (observeAll_inv n0 os Hinv0 i bucket Hb) as (Hlen & Hnodup & Hidx).
  destruct (observeAll_nodeId n0 os) as [Hid Hk].
  rewrite Hk in Hlen.
  split; [assumption |]. split; [assumption |]. split.
  - intros Hcan. now apply NoDup_decoded.
  - intros c L Hc Hself Hx. rewrite <- (Hidx c Hc).
    rewrite <- Hid in Hself |- *.
    now apply getBucketIndex_msbOf.
Qed.

Lemma routing_invariant_witness :
  let bucket := [mkContact Sample.idC "10.0.0.3:3000" 3000;
                 mkContact Sample.idB "10.0.0.2:3000" 2000] in
  (length bucket <= 2)%nat /\
  List.NoDup (map (fun c => Buffer_from_hex (id c)) bucket) /\
  List.Forall
    (fun c => msbOf 160 (Z.lxor (nodeIdZ Sample.selfId) (nodeIdZ (id c))) 0)
    bucket.
Proof.
  intros bucket.
  destruct (routing_invariant Sample.node0_k2
              [Sample.obsA; Sample.obsB; Sample.obsC] 0%nat bucket)
    as (Hlen & _ & Hdistinct & Hmsb).
  - reflexivity.
  - vm_compute. reflexivity.
  - split; [exact Hlen |]. split.
    + apply Hdistinct. intros c [<- | [<- | []]]; vm_compute; reflexivity.
    + apply List.Forall_forall. intros c Hc.
      apply (Hmsb c 20%nat Hc); [reflexivity |].
      destruct Hc as [<- | [<- | []]]; vm_compute; reflexivity.
Defined.

(** C6, as stated, fails on its second clause: hex digits are read in
    either case, while [addNode] looks for the observed identifier by
    string equality.  After observing [ab00..00] and [AB00..00], bucket 0
    holds two contacts with one and the same NodeID. *)
Lemma bucket_repeats_nodeId :
  buckets Sample.nodeTie !! 0%nat
  = Some [mkContact Sample.idUpper "10.0.0.2:3000" 2000;
          mkContact Sample.idLower "10.0.0.1:3000" 1000] /\
  Buffer_from_hex Sample.idUpper = Buffer_from_hex Sample.idLower /\
  ~ List.NoDup
      (map (fun c => Buffer_from_hex (id c))
         [mkContact Sample.idUpper "10.0.0.2:3000" 2000;
          mkContact Sample.idLower "10.0.0.1:3000" 1000]).
Proof.
  split; [vm_compute; reflexivity |]. split; [vm_compute; reflexivity |].
  intros Hnd. apply List.NoDup_cons_iff in Hnd. destruct Hnd as [Hnotin _].
  apply Hnotin. left. vm_compute. reflexivity.
Qed.

End InvariantFacts.

(* ================================================================== *)
(** * More on the UDP handler and the store *)
(* ================================================================== *)

Module MessageFacts.
Import Js JsFacts Kademlia Spec KademliaFacts ClosestFacts StorageFacts Runs.

Lemma set_storage_inv (n : KademliaNode) (st : gmap string StorageEntry) :
  RoutingInv n -> RoutingInv (set_storage n st).
Proof. intros Hinv i bucket Hb. exact (Hinv i bucket Hb). Qed.

Lemma addNode_alpha (n n' : KademliaNode) (x e : string) (t : Z) :
  addNode n x e t = Normal n' -> alpha n' = alpha n.
Proof.
  unfold addNode. cbv zeta.
  destruct (buckets n !! getBucketIndex n x); [| discriminate].
  now intros [= <-].
Qed.

(** The node [handleMessage] leaves: the one it got, or the one [addNode]
    made, with one more stored entry for a STORE frame. *)
Lemma handleMessage_node (n : KademliaNode) (msg : Frame) (a : string)
  (t : Z) :
  fst (handleMessage n msg a t) = n \/
  exists sender n1,
    f_nodeId msg = Some sender /\
    addNode n sender a t = Normal n1 /\
    ((f_type msg = "STORE" /\
      fst (handleMessage n msg a t)
      = set_storage n1
          (<[f_key msg := mkEntry (f_value msg) t 3600000]> (storage n1)))
     \/ (f_type msg <> "STORE" /\ fst (handleMessage n msg a t) = n1)).
Proof.
  unfold handleMessage.
  destruct (f_nodeId msg) as [sender |]; [| now left].
  destruct (addNode n sender a t) as [n1 | err] eqn:Hadd; [| now left].
  right. exists sender, n1. split; [reflexivity |]. split; [exact Hadd |].
  destruct (String.eqb_spec (f_type msg) "STORE") as [Hs | Hs].
  - left. now split.
  - right. split; [assumption |].
    destruct (String.eqb (f_type msg) "FIND_VALUE").
    + destruct (freshEntry n1 (f_key msg) t); reflexivity.
    + destruct (String.eqb (f_type msg) "PING"); [reflexivity |].
      destruct (String.eqb (f_type msg) "NAT_PUNCH"); reflexivity.
Qed.

Lemma handleMessage_inv (n : KademliaNode) (msg : Frame) (a : string)
  (t : Z) :
  RoutingInv n ->
  RoutingInv (fst (handleMessage n msg a t)) /\
  nodeId (fst (handleMessage n msg a t)) = nodeId n /\
  k (fst (handleMessage n msg a t)) = k n /\
  alpha (fst (handleMessage n msg a t)) = alpha n.
Proof.
  intros Hinv.
  destruct (handleMessage_node n msg a t)
    as [-> | (sender & n1 & _ & Hadd & [[_ ->] | [_ ->]])]; [auto | |].
  - destruct (addNode_fields _ _ _ _ _ Hadd) as (Hid & Hk & _).
    pose proof (addNode_alpha _ _ _ _ _ Hadd) as Ha.
    pose proof (addNode_inv _ _ _ _ _ Hinv Hadd) as Hinv1.
    split; [now apply set_storage_inv |]. cbn [nodeId k alpha set_storage].
    auto.
  - destruct (addNode_fields _ _ _ _ _ Hadd) as (Hid & Hk & _).
    pose proof (addNode_alpha _ _ _ _ _ Hadd) as Ha.
    pose proof (addNode_inv _ _ _ _ _ Hinv Hadd) as Hinv1.
    auto.
Qed.

Lemma handleAll_acc (inputs : list (Frame * string * Z))
  (n : KademliaNode) (out : list Datagram) :
  fold_left
    (fun (acc : KademliaNode * list Datagram)
         (input : Frame * string * Z) =>
       let '(msg, senderAddress, now) := input in
       let '(n', sent) := handleMessage (fst acc) msg senderAddress now in
       (n', snd acc ++ sent))
    inputs (n, out)
  = (fst (handleAll n inputs), out ++ snd (handleAll n inputs)).
Proof.
  unfold handleAll. revert n out.
  induction inputs as [| [[msg a] t] inputs IH]; intros n out.
  - cbn. now rewrite app_nil_r.
  - cbn [fold_left fst snd].
    destruct (handleMessage n msg a t) as [n1 sent].
    rewrite (IH n1 (out ++ sent)), (IH n1 ([] ++ sent)).
    cbn [fst snd app]. now rewrite app_assoc.
Qed.

Lemma handleAll_cons (n : KademliaNode) (msg : Frame) (a : string) (t : Z)
  (inputs : list (Frame * string * Z)) :
  handleAll n ((msg, a, t) :: inputs)
  = (fst (handleAll (fst (handleMessage n msg a t)) inputs),
     snd (handleMessage n msg a t)
       ++ snd (handleAll (fst (handleMessage n msg a t)) inputs)).
Proof.
  unfold handleAll at 1. cbn [fold_left fst snd].
  destruct (handleMessage n msg a t) as [n1 sent]. cbn [fst snd app].
  apply handleAll_acc.
Qed.

(** X7.  Handling any sequence of frames, of any type and from any
    sender, keeps the routing table within its invariant (at most [k]
    entries in a bucket, distinct identifiers, every entry in the bucket of
    its index) and leaves the node's identifier, [k] and [alpha] as they
    were. *)
Theorem handleMessage_keeps_table (n0 : KademliaNode)
  (inputs : list (Frame * string * Z)) :
  RoutingInv n0 ->
  RoutingInv (fst (handleAll n0 inputs)) /\
  nodeId (fst (handleAll n0 inputs)) = nodeId n0 /\
  k (fst (handleAll n0 inputs)) = k n0 /\
  alpha (fst (handleAll n0 inputs)) = alpha n0.
Proof.
  revert n0. induction inputs as [| [[msg a] t] inputs IH]; intros n0 Hinv.
  - cbn. auto.
  - rewrite handleAll_cons. cbn [fst].
    destruct (handleMessage_inv n0 msg a t Hinv) as (Hinv1 & Hid & Hk & Ha).
    destruct (IH _ Hinv1) as (Hinv2 & Hid2 & Hk2 & Ha2).
    split; [assumption |]. split; [congruence |]. split; congruence.
Qed.

Lemma handleMessage_keeps_table_witness :
  RoutingInv
    (fst (handleAll Sample.node3
            [(Sample.findValueFrame, "10.0.0.1:3000", 6000);
             (Sample2.storeFrame, "10.0.0.2:3000", 6500)])) /\
  k (fst (handleAll Sample.node3
            [(Sample.findValueFrame, "10.0.0.1:3000", 6000);
             (Sample2.storeFrame, "10.0.0.2:3000", 6500)])) = 20%nat.
Proof.
  destruct (handleMessage_keeps_table Sample.node3
              [(Sample.findValueFrame, "10.0.0.1:3000", 6000);
               (Sample2.storeFrame, "10.0.0.2:3000", 6500)])
    as (Hinv & _ & Hk & _).
  - apply observeAll_inv, new_inv.
  - split; [exact Hinv |]. rewrite Hk. reflexivity.
Defined.

(** X8.  [handleMessage] answers a frame with at most one datagram; an
    answer goes to the address the frame came from, carries the node's own
    identifier, and is only given to FIND_VALUE, PING and NAT_PUNCH
    frames. *)
Theorem handleMessage_replies (n : KademliaNode) (msg : Frame) (a : string)
  (t : Z) :
  (length (snd (handleMessage n msg a t)) <= 1)%nat /\
  forall d, In d (snd (handleMessage n msg a t)) ->
    dest d = a /\
    getProp (message d) "nodeId" = Normal (JStr (nodeId n)) /\
    (f_type msg = "FIND_VALUE" \/ f_type msg = "PING" \/
     f_type msg = "NAT_PUNCH").
Proof.
  unfold handleMessage.
  destruct (f_nodeId msg) as [sender |]; [| split; [cbn; lia | intros d []]].
  destruct (addNode n sender a t) as [n1 | err] eqn:Hadd;
    [| split; [cbn; lia | intros d []]].
  destruct (addNode_fields _ _ _ _ _ Hadd) as (Hid & _).
  destruct (String.eqb_spec (f_type msg) "STORE");
    [split; [cbn; lia | intros d []] |].
  destruct (String.eqb_spec (f_type msg) "FIND_VALUE").
  { destruct (freshEntry n1 (f_key msg) t); cbn [snd length];
      (split; [lia |]); intros d [<- | []]; cbn; rewrite Hid; auto. }
  destruct (String.eqb_spec (f_type msg) "PING").
  { cbn [snd length]. split; [lia |].
    intros d [<- | []]; cbn; rewrite Hid; auto. }
  destruct (String.eqb_spec (f_type msg) "NAT_PUNCH").
  { cbn [snd length]. split; [lia |].
    intros d [<- | []]; cbn; rewrite Hid; auto. }
  split; [cbn; lia | intros d []].
Qed.

Lemma handleMessage_replies_witness :
  length (snd (handleMessage Sample.node3 Sample.findValueFrame
                 "10.0.0.1:3000" 6000)) = 1%nat /\
  List.Forall
    (fun d => dest d = "10.0.0.1:3000" /\
              getProp (message d) "nodeId" = Normal (JStr Sample.selfId))
    (snd (handleMessage Sample.node3 Sample.findValueFrame
            "10.0.0.1:3000" 6000)).
Proof.
  split; [vm_compute; reflexivity |].
  rewrite List.Forall_forall. intros d Hd.
  destruct (handleMessage_replies Sample.node3 Sample.findValueFrame
              "10.0.0.1:3000" 6000) as [_ Hreply].
  destruct (Hreply d Hd) as (Hdest & Hid & _). split; assumption.
Defined.

Lemma handleMessage_storage (n : KademliaNode) (msg : Frame) (a : string)
  (t : Z) (key : string) :
  (storage (fst (handleMessage n msg a t)) !! key = storage n !! key) \/
  (f_type msg = "STORE" /\ f_key msg = key /\
   storage (fst (handleMessage n msg a t)) !! key
   = Some (mkEntry (f_value msg) t 3600000)).
Proof.
  destruct (handleMessage_node n msg a t)
    as [-> | (sender & n1 & _ & Hadd & [[Hs ->] | [_ ->]])]; [now left | |].
  - destruct (addNode_fields _ _ _ _ _ Hadd) as (_ & _ & Hst & _).
    cbn [storage set_storage]. rewrite Hst.
    destruct (decide (f_key msg = key)) as [He | Hne].
    + right. rewrite He, lookup_insert_eq. auto.
    + left. now rewrite lookup_insert_ne.
  - destruct (addNode_fields _ _ _ _ _ Hadd) as (_ & _ & Hst & _).
    left. now rewrite Hst.
Qed.

(** X9.  No frame removes a stored entry: a key that has an entry, expired
    or not, still has one after any sequence of frames, and the entry is
    the same unless a STORE frame for that key was among them. *)
Theorem handleMessage_never_deletes (n0 : KademliaNode)
  (inputs : list (Frame * string * Z)) (key : string) :
  is_Some (storage n0 !! key) ->
  is_Some (storage (fst (handleAll n0 inputs)) !! key) /\
  ((forall msg a t, In (msg, a, t) inputs ->
      f_type msg = "STORE" -> f_key msg <> key) ->
   storage (fst (handleAll n0 inputs)) !! key = storage n0 !! key).
Proof.
  revert n0. induction inputs as [| [[msg a] t] inputs IH]; intros n0 Hsome.
  - cbn. auto.
  - rewrite handleAll_cons. cbn [fst].
    assert (Hstep : is_Some (storage (fst (handleMessage n0 msg a t)) !! key)).
    { destruct (handleMessage_storage n0 msg a t key) as [-> | (_ & _ & ->)];
        [assumption | eauto]. }
    destruct (IH _ Hstep) as [Hkeep Hsame]. split; [exact Hkeep |].
    intros Hno. rewrite Hsame.
    + destruct (handleMessage_storage n0 msg a t key)
        as [-> | (Hs & Hk & _)]; [reflexivity |].
      exfalso. apply (Hno msg a t); [now left | assumption | assumption].
    + intros msg' a' t' Hin. apply (Hno msg' a' t'). now right.
Qed.

Lemma handleMessage_never_deletes_witness :
  is_Some
    (storage
       (fst (handleAll Sample.node3_alpha
               [(Sample.findValueFrame, "10.0.0.1:3000", 99999999)]))
     !! Sample.targetId).
Proof.
  apply (handleMessage_never_deletes Sample.node3_alpha
           [(Sample.findValueFrame, "10.0.0.1:3000", 99999999)]
           Sample.targetId).
  vm_compute. eauto.
Defined.

(** X10.  A STORE frame from any sender that [addNode] accepts replaces
    whatever the node holds under the frame's key: for the next hour
    [retrieve] of a key with that hash returns the frame's value, without
    a datagram. *)
Theorem store_frame_overwrites (sha1 : string -> string)
  (net : Datagram -> SendOutcome) (n n1 : KademliaNode) (msg : Frame)
  (sender a key : string) (t now : Z) :
  f_type msg = "STORE" ->
  f_nodeId msg = Some sender ->
  addNode n sender a t = Normal n1 ->
  sha1 key = f_key msg ->
  now - t < 3600000 ->
  retrieve sha1 net (fst (handleMessage n msg a t)) key now
  = (f_value msg, []).
Proof.
  intros Ht Hid Hadd Hkey Hnow.
  assert (Hn : fst (handleMessage n msg a t)
               = set_storage n1
                   (<[f_key msg := mkEntry (f_value msg) t 3600000]>
                      (storage n1))).
  { unfold handleMessage. now rewrite Hid, Hadd, Ht. }
  rewrite Hn.
  apply (retrieve_hit sha1 net _ key now (mkEntry (f_value msg) t 3600000)).
  unfold freshEntry. cbn [storage set_storage].
  rewrite Hkey, lookup_insert_eq. cbn [timestamp ttl].
  now replace (now - t <? 3600000) with true by (symmetry; apply Z.ltb_lt; lia).
Qed.

Lemma store_frame_overwrites_witness :
  retrieve Sample.constHash Sample.allSent
    (fst (handleMessage Sample.node3_alpha Sample2.storeFrame
            "10.0.0.2:3000" 6500)) "alpha" 7000
  = (JStr "other", []).
Proof.
  apply (store_frame_overwrites Sample.constHash Sample.allSent
           Sample.node3_alpha
           (observe Sample.node3_alpha (Sample.idB, "10.0.0.2:3000", 6500))
           Sample2.storeFrame Sample.idB "10.0.0.2:3000" "alpha" 6500 7000).
  - reflexivity.
  - reflexivity.
  - vm_compute. reflexivity.
  - reflexivity.
  - lia.
Defined.

End MessageFacts.

(* ================================================================== *)
(** * More on [store], [retrieve] and [findClosestNodes] *)
(* ================================================================== *)

Module LookupFacts.
Import Js JsFacts Kademlia Spec KademliaFacts ClosestFacts StorageFacts Runs.

(** ** What [findClosestNodes] returns, for any identifiers *)

Lemma closest_as_firstn (n : KademliaNode) (target : string) (count : nat) :
  findClosestNodes n target (Z.of_nat count)
  = firstn count
      (sort (fun a b => localeCompare (distance a) (distance b))
         (map (fun node => mkScored node (xorDistance (id node) target))
              (concat (buckets n)))).
Proof.
  unfold findClosestNodes, slice0. cbv zeta.
  replace (Z.of_nat count <? 0) with false by (symmetry; apply Z.ltb_ge; lia).
  now rewrite Nat2Z.id.
Qed.

Lemma closest_length (n : KademliaNode) (target : string) (count : nat) :
  length (findClosestNodes n target (Z.of_nat count))
  = Nat.min count (length (concat (buckets n))).
Proof.
  rewrite closest_as_firstn, length_firstn.
  rewrite (Permutation_length (sort_perm _ _)). now rewrite length_map.
Qed.

Lemma firstn_incl {A : Type} (m : nat) (l : list A) (x : A) :
  In x (firstn m l) -> In x l.
Proof.
  revert l. induction m as [| m IH]; intros l; [intros [] |].
  destruct l as [| y l]; [intros [] |]. cbn [firstn].
  intros [<- | Hx]; [now left | right; now apply IH].
Qed.

Lemma closest_members (n : KademliaNode) (target : string) (count : nat)
  (s : Scored) :
  In s (findClosestNodes n target (Z.of_nat count)) ->
  In (node s) (concat (buckets n)) /\
  distance s = xorDistance (id (node s)) target.
Proof.
  rewrite closest_as_firstn. intros Hs. apply firstn_incl in Hs.
  apply sort_In in Hs. apply in_map_iff in Hs.
  destruct Hs as (c & <- & Hc). auto.
Qed.

(** X11.  Whatever the identifiers in the table, [findClosestNodes] with a
    count [c >= 0] returns [min c total] entries, each of them a contact of
    the table together with its own XOR distance to the target. *)
Theorem findClosestNodes_members (n : KademliaNode) (target : string)
  (count : nat) :
  length (findClosestNodes n target (Z.of_nat count))
    = Nat.min count (length (concat (buckets n))) /\
  forall s, In s (findClosestNodes n target (Z.of_nat count)) ->
    In (node s) (concat (buckets n)) /\
    distance s = xorDistance (id (node s)) target.
Proof.
  split; [apply closest_length |].
  intros s Hs. now apply (closest_members n target count).
Qed.

Lemma findClosestNodes_members_witness :
  length (findClosestNodes Sample.node3 Sample.targetId 2) = 2%nat /\
  List.Forall
    (fun s => In (node s) (concat (buckets Sample.node3)) /\
              distance s = xorDistance (id (node s)) Sample.targetId)
    (findClosestNodes Sample.node3 Sample.targetId 2).
Proof.
  destruct (findClosestNodes_members Sample.node3 Sample.targetId 2)
    as [Hlen Hmem].
  split; [exact Hlen |].
  rewrite List.Forall_forall. exact Hmem.
Defined.



(** ** [store] *)

Section WithHash.

Variable sha1 : string -> string.
Variable net : Datagram -> SendOutcome.

(** X13.  A value put with [store] is read back by [retrieve] exactly
    until one hour has passed: while [now - t0 < 3,600,000] the call returns
    the value and sends nothing, and from then on it goes to the network
    and, as no response is ever read, returns [null]. *)
Theorem store_retrieve_window (n : KademliaNode) (key : string)
  (v : JsValue) (t0 now : Z) :
  retrieve sha1 net (fst (fst (store sha1 net n key v t0))) key now
  = if now - t0 <? 3600000
    then (v, [])
    else (JNull,
          map (query (fst (fst (store sha1 net n key v t0))) (sha1 key))
              (slice0
                 (findClosestNodes_default
                    (fst (fst (store sha1 net n key v t0))) (sha1 key))
                 (Z.of_nat (alpha n)))).
Proof.
  destruct (Z.ltb_spec (now - t0) 3600000) as [Hlt | Hge].
  - rewrite (retrieve_hit sha1 net _ key now (mkEntry v t0 3600000));
      [reflexivity |].
    now apply store_then_fresh.
  - rewrite retrieve_miss.
    + f_equal. unfold store. cbv zeta.
      destruct (storeLoop _ _ _ _ _). reflexivity.
    + apply freshEntry_None. intros stored Hs.
      unfold store in Hs. cbv zeta in Hs.
      destruct (storeLoop _ _ _ _ _) in Hs. cbn [fst storage set_storage] in Hs.
      rewrite lookup_insert_eq in Hs. injection Hs as <-. cbn. lia.
Qed.

Lemma sendStore_outcome (n : KademliaNode) (keyHash : string) (v : JsValue)
  (t : Scored) :
  sendStore net n (address (node t)) keyHash v
  = (match net (storeDatagram n keyHash v t) with
     | Sent => Resolved tt
     | Failed err => Failure (Error err)
     | Stalled => Pending
     end, storeDatagram n keyHash v t).
Proof.
  unfold sendStore, storeDatagram. cbv zeta. destruct (net _); reflexivity.
Qed.

(** The loop hands the datagrams over one by one and stops with the first
    one that is not sent, which it has handed over as well. *)
Lemma storeLoop_outcome (n : KademliaNode) (keyHash : string) (v : JsValue)
  (targets : list Scored) :
  ((forall d, In d (map (storeDatagram n keyHash v) targets) ->
              net d = Sent) /\
   storeLoop net n keyHash v targets
   = (Resolved tt, map (storeDatagram n keyHash v) targets)) \/
  (exists before d after,
      map (storeDatagram n keyHash v) targets = before ++ d :: after /\
      (forall x, In x before -> net x = Sent) /\
      snd (storeLoop net n keyHash v targets) = before ++ [d] /\
      ((exists err,
           net d = Failed err /\
           fst (storeLoop net n keyHash v targets) = Failure (Error err)) \/
       (net d = Stalled /\
        fst (storeLoop net n keyHash v targets) = Pending))).
Proof.
  induction targets as [| t targets IH].
  - left. split; [intros d [] | reflexivity].
  - cbn [storeLoop map]. rewrite sendStore_outcome.
    destruct (net (storeDatagram n keyHash v t)) as [| err |] eqn:Hnet.
    + destruct IH as [[Hall Heq]
                     | (before & d & after & Hsplit & Hbefore & Hsent & Hres)].
      * left. rewrite Heq. split; [| reflexivity].
        intros d [<- | Hd]; [assumption | now apply Hall].
      * right. exists (storeDatagram n keyHash v t :: before), d, after.
        destruct (storeLoop net n keyHash v targets) as [r ds].
        cbn [fst snd] in *.
        split; [now rewrite Hsplit |].
        split; [intros x [<- | Hx]; [assumption | now apply Hbefore] |].
        split; [now rewrite Hsent | exact Hres].
    + right.
      exists [], (storeDatagram n keyHash v t),
             (map (storeDatagram n keyHash v) targets).
      cbn [fst snd app].
      split; [reflexivity |]. split; [intros x [] |].
      split; [reflexivity |]. left. exists err. auto.
    + right.
      exists [], (storeDatagram n keyHash v t),
             (map (storeDatagram n keyHash v) targets).
      cbn [fst snd app].
      split; [reflexivity |]. split; [intros x [] |].
      split; [reflexivity |]. right. auto.
Qed.

(** X14.  [store] always writes the entry locally, whatever happens to
    the datagrams, and does not touch the routing table.  The STORE
    datagrams are those for the [min k total] closest contacts, in order
    of distance, and they are handed to the socket one after the other:
    when every one of them is sent, all are handed over and the promise
    resolves; otherwise the first one that is not sent is the last one
    handed over, the contacts after it get nothing, and the promise
    rejects with the send error or, when the send stalls, never settles. *)
Theorem store_replicates (n : KademliaNode) (key : string) (v : JsValue)
  (t0 : Z) :
  let stores :=
    map (storeDatagram n (sha1 key) v)
        (findClosestNodes n (sha1 key) (Z.of_nat (k n))) in
  storage (fst (fst (store sha1 net n key v t0))) !! sha1 key
    = Some (mkEntry v t0 3600000) /\
  buckets (fst (fst (store sha1 net n key v t0))) = buckets n /\
  length stores = Nat.min (k n) (length (concat (buckets n))) /\
  (((forall d, In d stores -> net d = Sent) /\
    snd (store sha1 net n key v t0) = stores /\
    snd (fst (store sha1 net n key v t0)) = Resolved tt) \/
   (exists before d after,
       stores = before ++ d :: after /\
       (forall x, In x before -> net x = Sent) /\
       snd (store sha1 net n key v t0) = before ++ [d] /\
       ((exists err,
            net d = Failed err /\
            snd (fst (store sha1 net n key v t0)) = Failure (Error err)) \/
        (net d = Stalled /\
         snd (fst (store sha1 net n key v t0)) = Pending)))).
Proof.
  intros stores. unfold store. cbv zeta.
  set (n1 := set_storage n
               (<[sha1 key := mkEntry v t0 3600000]> (storage n))).
  set (targets := slice0 (findClosestNodes_default n1 (sha1 key))
                         (Z.of_nat (k n1))).
  assert (Htargets :
            targets = findClosestNodes n (sha1 key) (Z.of_nat (k n))).
  { subst targets. unfold findClosestNodes_default.
    change (k n1) with (k n).
    change (findClosestNodes n1 (sha1 key) (Z.of_nat (k n)))
      with (findClosestNodes n (sha1 key) (Z.of_nat (k n))).
    unfold slice0 at 1.
    replace (Z.of_nat (k n) <? 0) with false
      by (symmetry; apply Z.ltb_ge; lia).
    rewrite Nat2Z.id. apply firstn_all2.
    rewrite closest_length. lia. }
  assert (Hstores : map (storeDatagram n1 (sha1 key) v) targets = stores).
  { subst stores. rewrite Htargets. reflexivity. }
  pose proof (storeLoop_outcome n1 (sha1 key) v targets) as Hloop.
  rewrite Hstores in Hloop.
  destruct (storeLoop net n1 (sha1 key) v targets) as [r ds].
  cbn [fst snd] in *.
  split; [apply lookup_insert_eq |]. split; [reflexivity |].
  split; [subst stores; rewrite length_map; apply closest_length |].
  destruct Hloop as [[Hall Heq] | Hstop].
  - left. injection Heq as -> ->. auto.
  - right. exact Hstop.
Qed.

End WithHash.

Lemma store_replicates_witness :
  snd (store Sample.constHash Sample2.unreachableA Sample.node3 "alpha"
         (JNum 42) 5000)
  = [mkDatagram "10.0.0.2:3000"
       (JObj [("type", JStr "STORE"); ("key", JStr Sample.targetId);
              ("value", JNum 42); ("nodeId", JStr Sample.selfId)]);
     mkDatagram "10.0.0.1:3000"
       (JObj [("type", JStr "STORE"); ("key", JStr Sample.targetId);
              ("value", JNum 42); ("nodeId", JStr Sample.selfId)])] /\
  snd (fst (store Sample.constHash Sample2.unreachableA Sample.node3 "alpha"
              (JNum 42) 5000))
  = Failure (Error "ENETUNREACH").
Proof.
  destruct (store_replicates Sample.constHash Sample2.unreachableA
              Sample.node3 "alpha" (JNum 42) 5000)
    as (_ & _ & _ & [(Hall & _)
                    | (before & d & after & Hsplit & Hbefore & Hsent & Hres)]).
  - exfalso.
    specialize (Hall (mkDatagram "10.0.0.1:3000"
                        (JObj [("type", JStr "STORE");
                               ("key", JStr Sample.targetId);
                               ("value", JNum 42);
                               ("nodeId", JStr Sample.selfId)]))).
    assert (Hsent : Sample2.unreachableA
                      (mkDatagram "10.0.0.1:3000"
                         (JObj [("type", JStr "STORE");
                                ("key", JStr Sample.targetId);
                                ("value", JNum 42);
                                ("nodeId", JStr Sample.selfId)])) = Sent).
    { apply Hall. vm_compute. right. left. reflexivity. }
    vm_compute in Hsent. discriminate Hsent.
  - vm_compute in Hsplit.
    destruct before as [| b0 [| b1 [| b2 before]]].
    + exfalso. injection Hsplit as <- _.
      destruct Hres as [(err & Hnet & _) | [Hnet _]];
        vm_compute in Hnet; discriminate Hnet.
    + injection Hsplit as <- <- _. rewrite Hsent.
      split; [reflexivity |].
      destruct Hres as [(err & Hnet & ->) | [Hnet _]].
      * vm_compute in Hnet. now injection Hnet as <-.
      * vm_compute in Hnet. discriminate Hnet.
    + exfalso. injection Hsplit as <- <- _.
      assert (Hnet : Sample2.unreachableA
                       (mkDatagram "10.0.0.1:3000"
                          (JObj [("type", JStr "STORE");
                                 ("key", JStr Sample.targetId);
                                 ("value", JNum 42);
                                 ("nodeId", JStr Sample.selfId)])) = Sent).
      { apply Hbefore. right. left. reflexivity. }
      vm_compute in Hnet. discriminate Hnet.
    + exfalso. injection Hsplit as _ _ _ Hrest.
      destruct before; discriminate Hrest.
Defined.

End LookupFacts.

(* ================================================================== *)
(** * More on identities *)
(* ================================================================== *)

Module IdentityMore.
Import Js Identity Spec IdentityFacts ZK.

Section WithSign.

Variable crypto_sign : string -> string -> string.

Lemma run_cons (self : AnonymousIdentity) (op : Op) (ops : list Op) :
  run crypto_sign self (op :: ops)
  = run crypto_sign (step crypto_sign self op) ops.
Proof. reflexivity. Qed.

Lemma step_sign_counts (self : AnonymousIdentity) (message keyId : string)
  (now : Z) (e : EphemeralKey) :
  ephemeralKeys self !! keyId = Some e ->
  uses e + 1 <= 100 -> now - created e <= 3600000 ->
  ephemeralKeys (step crypto_sign self (Sign message keyId now)) !! keyId
  = Some (mkEphemeral (keyPair e) (created e) (uses e + 1)).
Proof.
  intros He Hu Ht. cbn [step].
  destruct (sign_outcome crypto_sign self message keyId now e He)
    as (self' & -> & _ & _ & Hlive).
  now apply Hlive.
Qed.

Lemma signs_count (message keyId : string) (ts : list Z)
  (self : AnonymousIdentity) (e : EphemeralKey) :
  ephemeralKeys self !! keyId = Some e ->
  Forall (fun t => t - created e <= 3600000) ts ->
  uses e + Z.of_nat (length ts) <= 100 ->
  ephemeralKeys (run crypto_sign self (map (Sign message keyId) ts)) !! keyId
  = Some (mkEphemeral (keyPair e) (created e)
            (uses e + Z.of_nat (length ts))).
Proof.
  revert self e. induction ts as [| t ts IH]; intros self e He Hts Hu.
  - cbn. rewrite He, Z.add_0_r. now destruct e.
  - cbn [map]. rewrite run_cons. cbn [length] in Hu |- *.
    inversion Hts as [| ? ? Ht Hts']; subst.
    pose proof (step_sign_counts self message keyId t e He
                  ltac:(lia) Ht) as He1.
    rewrite (IH _ _ He1); cbn [keyPair created uses].
    + f_equal. f_equal. lia.
    + exact Hts'.
    + lia.
Qed.

(** X15.  A fresh ephemeral key signs 101 times, not 100.  After [n <=
    100] signatures made within the hour its counter is [n] and it is
    still held; when 100 have been made, one more call still returns a
    signature and removes the key, and every call after that throws
    [Ephemeral key not found]. *)
Theorem ephemeral_key_lifetime (self : AnonymousIdentity) (kp : KeyPair)
  (keyId message : string) (t0 t : Z) (ts : list Z) :
  Forall (fun t' => t' - t0 <= 3600000) ts ->
  (length ts <= 100)%nat ->
  ephemeralKeys
    (run crypto_sign (fst (generateEphemeralKey self kp keyId t0))
       (map (Sign message keyId) ts)) !! keyId
  = Some (mkEphemeral kp t0 (Z.of_nat (length ts))) /\
  (length ts = 100%nat ->
   exists self' signature,
     signWithEphemeral crypto_sign
       (run crypto_sign (fst (generateEphemeralKey self kp keyId t0))
          (map (Sign message keyId) ts)) message keyId t
     = Normal (self', signature) /\
     ephemeralKeys self' !! keyId = None /\
     forall m t',
       signWithEphemeral crypto_sign self' m keyId t'
       = Throw (Error "Ephemeral key not found")).
Proof.
  intros Hts Hlen.
  set (self1 := fst (generateEphemeralKey self kp keyId t0)).
  assert (H1 : ephemeralKeys self1 !! keyId = Some (mkEphemeral kp t0 0)).
  { subst self1. cbn [generateEphemeralKey fst ephemeralKeys set_ephemeralKeys].
    apply lookup_insert_eq. }
  pose proof (signs_count message keyId ts self1 _ H1 Hts
                ltac:(cbn; lia)) as Hn.
  cbn [keyPair created uses] in Hn. rewrite Z.add_0_l in Hn.
  split; [exact Hn |]. intros H100.
  destruct (sign_outcome crypto_sign _ message keyId t _ Hn)
    as (self' & Hsign & _ & Hdead & _).
  exists self'. eexists. split; [exact Hsign |].
  assert (Hgone : ephemeralKeys self' !! keyId = None).
  { apply Hdead. left. cbn [uses]. lia. }
  split; [exact Hgone |].
  intros m t'. unfold signWithEphemeral. now rewrite Hgone.
Qed.

End WithSign.

Lemma ephemeral_key_lifetime_witness :
  exists self' signature,
    signWithEphemeral Sample.toySign
      (run Sample.toySign
         (fst (generateEphemeralKey Sample.identity0 Sample.keysEphemeral
                 "k1" 0))
         (map (Sign "hello" "k1") (repeat 10 100))) "hello" "k1" 20
    = Normal (self', signature) /\
    ephemeralKeys self' !! "k1" = None.
Proof.
  destruct (ephemeral_key_lifetime Sample.toySign Sample.identity0
              Sample.keysEphemeral "k1" "hello" 0 20 (repeat 10 100))
    as (_ & Hlast).
  - apply List.Forall_forall. intros x Hx.
    apply repeat_spec in Hx. subst x. lia.
  - rewrite repeat_length. lia.
  - destruct (Hlast ltac:(apply repeat_length))
      as (self' & signature & Hsign & Hgone & _).
    exists self', signature. split; [exact Hsign | exact Hgone].
Defined.

Section WithHash.

Variable sha256 : string -> string.

(** X16.  [verifyZKProof] accepts the proof that [createZKProof] makes,
    whoever verifies it; and since the pseudonym and the challenge are fed
    to the hash one after the other with nothing between them, a proof
    made for one pair is accepted for every pair with the same
    concatenation. *)
Theorem zk_proof_accepted (prover verifier : AnonymousIdentity)
  (challenge challenge' pseudonym' : string) :
  pseudonym prover +:+ challenge = pseudonym' +:+ challenge' ->
  verifyZKProof sha256 verifier (createZKProof sha256 prover challenge)
    challenge' pseudonym' = true /\
  verifyZKProof sha256 verifier (createZKProof sha256 prover challenge)
    challenge (pseudonym prover) = true.
Proof.
  intros Hcat. unfold verifyZKProof, createZKProof. cbv zeta.
  rewrite Hcat, !String.eqb_refl. auto.
Qed.

End WithHash.

Lemma zk_proof_accepted_witness :
  verifyZKProof Sample2.plainHash Sample.identity0
    (createZKProof Sample2.plainHash Sample.identity0 "77challenge")
    "7challenge" "5f3a9c0d1e2b4a6f8091a2b3c4d5e6f77" = true.
Proof.
  apply (zk_proof_accepted Sample2.plainHash Sample.identity0
           Sample.identity0 "77challenge" "7challenge"
           "5f3a9c0d1e2b4a6f8091a2b3c4d5e6f77").
  reflexivity.
Defined.

End IdentityMore.

(* ================================================================== *)
(** * More on envelopes, circuits and the overlay node *)
(* ================================================================== *)

Module OverlayFacts.
Import Js Onion P2P Overlay Runs.
Import OnionFacts P2PFacts LookupFacts.

(** ** One layer, there and back *)

Section RoundTrip.

Variable publicEncrypt : string -> string -> option string.
Variable privateDecrypt : string -> string -> option string.
Variable Buffer_from_base64 : string -> string.
Variable Buffer_from_object : JsValue -> option string.
Variable JSON_parse : string -> option JsValue.
Variable rnd : Random.

(** X17.  Over a circuit of one hop, when the primitives work together
    (the serialised record is short enough to be encrypted, the hop's
    private key decrypts what its public key encrypted, the base64 text
    decodes, the JSON text parses back), [createOnionPacket] builds an
    envelope that [decryptLayer] opens to [{ payload, timestamp }], and the
    node that receives it in an ONION_PACKET frame emits [anonymousMessage]
    with the message. *)
Theorem one_hop_delivery (self : AnonymousP2PNode) (hop : Hop)
  (message : JsValue) (now : Z) (text ciphertext circuitId peerId : string) :
  stringify (JObj [("payload", message); ("timestamp", JNum now)])
    = Some text ->
  publicEncrypt (publicKey hop) text = Some ciphertext ->
  privateDecrypt
    (Identity.privateKey (Identity.identityKeyPair (identity self)))
    (Buffer_from_base64 (Buffer_toString_base64 ciphertext)) = Some text ->
  JSON_parse text
    = Some (JObj [("payload", message); ("timestamp", JNum now)]) ->
  exists packet,
    createOnionPacket publicEncrypt rnd message [hop] now = Normal packet /\
    decryptLayer privateDecrypt Buffer_from_base64 Buffer_from_object JSON_parse packet
      (Identity.privateKey (Identity.identityKeyPair (identity self)))
    = Normal (JObj [("payload", message); ("timestamp", JNum now)]) /\
    processMessage privateDecrypt Buffer_from_base64 Buffer_from_object JSON_parse self
      (JObj [("type", JStr "ONION_PACKET"); ("packet", packet);
             ("circuitId", JStr circuitId)]) peerId
    = Normal [Emit "anonymousMessage" message].
Proof.
  intros Htext Henc Hdec Hparse.
  set (record := JObj [("payload", message); ("timestamp", JNum now)]) in *.
  set (packet := JObj [("encrypted", JStr (Buffer_toString_base64 ciphertext));
                       ("nextHop", JStr (layerTag rnd 0))]).
  assert (Hwrap : createOnionPacket publicEncrypt rnd message [hop] now
                  = Normal packet).
  { unfold createOnionPacket. cbv zeta. cbn [wrapFrom bind].
    fold record. unfold encryptLayer. now rewrite Htext, Henc. }
  assert (Hpeel : decryptLayer privateDecrypt Buffer_from_base64 Buffer_from_object JSON_parse
                    packet
                    (Identity.privateKey
                       (Identity.identityKeyPair (identity self)))
                  = Normal record).
  { unfold decryptLayer, packet.
    cbn [getProp assoc String.eqb Ascii.eqb Bool.eqb default from_option
         Datatypes.id].
    now rewrite Hdec, Hparse. }
  exists packet. split; [exact Hwrap |]. split; [exact Hpeel |].
  unfold processMessage.
  cbn [getProp assoc String.eqb Ascii.eqb Bool.eqb default from_option
       Datatypes.id bind].
  f_equal.
  rewrite (processOnionPacket_decrypted privateDecrypt Buffer_from_base64 Buffer_from_object
             JSON_parse self _ packet record JUndefined message peerId);
    try reflexivity.
  exact Hpeel.
Qed.

End RoundTrip.

Lemma one_hop_delivery_witness :
  exists packet,
    createOnionPacket Sample.toyEncrypt Sample.toyRandom (JStr "hello")
      [Sample2.hopSelf] 1700000000000 = Normal packet /\
    processMessage Sample2.unpadDecrypt Sample2.base64Decode Sample.toyBufferFrom
      Sample2.helloParse Sample.p2pSeen
      (JObj [("type", JStr "ONION_PACKET"); ("packet", packet);
             ("circuitId", JStr "a0a1a2a3a4a5a6a7a8a9aaabacadaeaf")])
      "peer-1"
    = Normal [Emit "anonymousMessage" (JStr "hello")].
Proof.
  destruct (one_hop_delivery Sample.toyEncrypt Sample2.unpadDecrypt
              Sample2.base64Decode Sample.toyBufferFrom Sample2.helloParse Sample.toyRandom
              Sample.p2pSeen Sample2.hopSelf (JStr "hello") 1700000000000
              Sample2.helloText
              (Sample2.helloText
                 +:+ Sample.padding (256 - String.length Sample2.helloText))
              "a0a1a2a3a4a5a6a7a8a9aaabacadaeaf" "peer-1")
    as (packet & Hwrap & _ & Hdeliver).
  - vm_compute. reflexivity.
  - vm_compute. reflexivity.
  - vm_compute. reflexivity.
  - vm_compute. reflexivity.
  - exists packet. split; [exact Hwrap | exact Hdeliver].
Defined.

(** ** What an inbound onion packet can cause *)

(** X18.  Whatever the frame and whatever the primitives do,
    [processOnionPacket] has exactly one effect, which is either the
    [anonymousMessage] event or a line on the error console: it never
    opens a connection and never writes to one.  When the layer does not
    decrypt, the line logged is [Decryption failed]. *)
Theorem processOnionPacket_no_network
  (privateDecrypt : string -> string -> option string)
  (Buffer_from_base64 : string -> string)
  (Buffer_from_object : JsValue -> option string)
  (JSON_parse : string -> option JsValue)
  (self : AnonymousP2PNode) (message : JsValue) (peerId : string) :
  ((exists payload,
       processOnionPacket privateDecrypt Buffer_from_base64 Buffer_from_object JSON_parse
         self message peerId = [Emit "anonymousMessage" payload]) \/
   (exists e,
       processOnionPacket privateDecrypt Buffer_from_base64 Buffer_from_object JSON_parse
         self message peerId = [ConsoleError e])) /\
  (forall packet e,
      getProp message "packet" = Normal packet ->
      decryptLayer privateDecrypt Buffer_from_base64 Buffer_from_object JSON_parse packet
        (Identity.privateKey (Identity.identityKeyPair (identity self)))
      = Throw e ->
      processOnionPacket privateDecrypt Buffer_from_base64 Buffer_from_object JSON_parse
        self message peerId = [ConsoleError (Error "Decryption failed")]).
Proof.
  split.
  - unfold processOnionPacket, processOnionPacket_try.
    destruct (getProp message "packet") as [packet | e]; cbn [bind];
      [| eauto].
    destruct (decryptLayer _ _ _ _ packet _) as [decrypted | e]; cbn [bind];
      [| eauto].
    destruct (getProp decrypted "nextHop") as [nextHop | e]; cbn [bind];
      [| eauto].
    destruct (truthy nextHop); [right; eauto |].
    destruct (getProp decrypted "payload") as [payload | e]; cbn [bind];
      eauto.
  - intros packet e Hpacket Hdec.
    unfold processOnionPacket, processOnionPacket_try.
    rewrite Hpacket. cbn [bind].
    assert (He : e = Error "Decryption failed").
    { unfold decryptLayer in Hdec.
      repeat case_match; congruence. }
    rewrite Hdec. cbn [bind]. now rewrite He.
Qed.

Lemma processOnionPacket_no_network_witness :
  processOnionPacket (fun _ _ => None) Sample.toyBase64Decode Sample.toyBufferFrom
    Sample.toyParse Sample.p2pSeen Sample.onionFrame "peer-1"
  = [ConsoleError (Error "Decryption failed")].
Proof.
  destruct (processOnionPacket_no_network (fun _ _ => None)
              Sample.toyBase64Decode Sample.toyBufferFrom Sample.toyParse
              Sample.p2pSeen Sample.onionFrame "peer-1") as [_ Hfail].
  apply (Hfail (JObj [("encrypted", JStr "QUJD");
                      ("nextHop", JStr "000102030405060708090a0b0c0d0e0f")])
               (Error "Decryption failed")); reflexivity.
Defined.

(** ** The other frame types *)

(** X19.  Of the frame types [processMessage] dispatches on, only
    ONION_PACKET has a handler: a DHT_QUERY, PEER_DISCOVERY or
    ANONYMOUS_MESSAGE frame makes the call throw a [TypeError], and a frame
    of any other type, cover traffic included, has no effect at all. *)
Theorem processMessage_other_types
  (privateDecrypt : string -> string -> option string)
  (Buffer_from_base64 : string -> string)
  (Buffer_from_object : JsValue -> option string)
  (JSON_parse : string -> option JsValue)
  (self : AnonymousP2PNode) (message : JsValue) (type peerId : string) :
  getProp message "type" = Normal (JStr type) ->
  type <> "ONION_PACKET" ->
  processMessage privateDecrypt Buffer_from_base64 Buffer_from_object JSON_parse
    self message peerId
  = if String.eqb type "DHT_QUERY" then
      Throw (TypeError "this.processDHTQuery is not a function")
    else if String.eqb type "PEER_DISCOVERY" then
      Throw (TypeError "this.processPeerDiscovery is not a function")
    else if String.eqb type "ANONYMOUS_MESSAGE" then
      Throw (TypeError "this.processAnonymousMessage is not a function")
    else Normal [].
Proof.
  intros Htype Hne. unfold processMessage. rewrite Htype. cbn [bind].
  apply String.eqb_neq in Hne. rewrite Hne.
  destruct (String.eqb type "DHT_QUERY"); [reflexivity |].
  destruct (String.eqb type "PEER_DISCOVERY"); [reflexivity |].
  destruct (String.eqb type "ANONYMOUS_MESSAGE"); reflexivity.
Qed.

Lemma processMessage_other_types_witness :
  processMessage Sample.toyDecrypt Sample.toyBase64Decode Sample.toyBufferFrom Sample.toyParse
    Sample.p2pSeen Sample2.dummyFrame "peer-1" = Normal [] /\
  processMessage Sample.toyDecrypt Sample.toyBase64Decode Sample.toyBufferFrom Sample.toyParse
    Sample.p2pSeen (JObj [("type", JStr "DHT_QUERY")]) "peer-1"
  = Throw (TypeError "this.processDHTQuery is not a function").
Proof.
  split.
  - apply (processMessage_other_types Sample.toyDecrypt
             Sample.toyBase64Decode Sample.toyBufferFrom Sample.toyParse Sample.p2pSeen
             Sample2.dummyFrame "DUMMY_TRAFFIC" "peer-1");
      [reflexivity | discriminate].
  - apply (processMessage_other_types Sample.toyDecrypt
             Sample.toyBase64Decode Sample.toyBufferFrom Sample.toyParse Sample.p2pSeen
             (JObj [("type", JStr "DHT_QUERY")]) "DHT_QUERY" "peer-1");
      [reflexivity | discriminate].
Defined.

End OverlayFacts.

(* ================================================================== *)
(** * Circuits, the anonymous send, the peer set and the queue *)
(* ================================================================== *)

Module CircuitFacts.
Import Js Onion P2P Overlay Runs.
Import OnionFacts P2PFacts LookupFacts.

(** ** [buildCircuit] *)

Lemma resolveFrom_info (rnd : Random) (i : nat) (targetNodes : list string) :
  map (fun hop => (publicKey hop, address hop))
      (resolveFrom rnd i targetNodes)
  = map (fun j => (info_publicKey (discovered rnd j),
                   info_address (discovered rnd j)))
        (seq i (length targetNodes)).
Proof.
  revert i. induction targetNodes as [| t ts IH]; intros i; [reflexivity |].
  cbn [resolveFrom getNodeInfo map length seq publicKey address].
  now rewrite IH.
Qed.

(** X20.  [buildCircuit] records, under the circuit id it draws, one hop
    for every identifier it is given, in order, and leaves the circuits
    recorded under other ids alone.  The key and the address of a hop are
    whatever [getNodeInfo] makes up at that position: they do not depend
    on the identifier, so two lists of the same length get the same keys
    and addresses. *)
Theorem buildCircuit_shape (rnd : Random) (self : OnionRouter)
  (targetNodes : list string) :
  snd (buildCircuit rnd self targetNodes) = circuitIdDraw rnd /\
  (exists circuit,
      circuits (fst (buildCircuit rnd self targetNodes))
        !! circuitIdDraw rnd = Some circuit /\
      map id circuit = targetNodes /\
      map (fun hop => (publicKey hop, address hop)) circuit
      = map (fun j => (info_publicKey (discovered rnd j),
                       info_address (discovered rnd j)))
            (seq 0 (length targetNodes))) /\
  forall other, other <> circuitIdDraw rnd ->
    circuits (fst (buildCircuit rnd self targetNodes)) !! other
    = circuits self !! other.
Proof.
  unfold buildCircuit. cbn [fst snd circuits].
  split; [reflexivity |]. split.
  - exists (resolveFrom rnd 0 targetNodes).
    split; [apply lookup_insert_eq |].
    split; [apply resolveFrom_ids | apply resolveFrom_info].
  - intros other Hne. now apply lookup_insert_ne.
Qed.

Lemma buildCircuit_shape_witness :
  circuits (fst (buildCircuit Sample.toyRandom Onion.new
                   [Sample.idA; Sample.idB]))
    !! "00000000000000000000000000000000"
  = None.
Proof.
  destruct (buildCircuit_shape Sample.toyRandom Onion.new
              [Sample.idA; Sample.idB]) as (_ & _ & Hother).
  rewrite Hother; [apply lookup_empty | discriminate].
Defined.

(** ** [findCircuitNodes] *)

Lemma lookup_one_empty (n : Kademlia.KademliaNode) (key : string) :
  concat (Kademlia.buckets n) = [] ->
  Kademlia.findClosestNodes n key 1 = [].
Proof.
  intros Hempty.
  pose proof (closest_length n key 1) as Hlen.
  rewrite Hempty in Hlen. cbn [length] in Hlen.
  change (Z.of_nat 1) with 1 in Hlen. rewrite Nat.min_0_r in Hlen.
  now destruct (Kademlia.findClosestNodes n key 1).
Qed.

Lemma lookup_one_some (n : Kademlia.KademliaNode) (key : string) :
  concat (Kademlia.buckets n) <> [] ->
  exists first,
    Kademlia.findClosestNodes n key 1 = [first] /\
    In (Kademlia.node first) (concat (Kademlia.buckets n)).
Proof.
  intros Hsome.
  pose proof (closest_length n key 1) as Hlen.
  change (Z.of_nat 1) with 1 in Hlen.
  destruct (Kademlia.findClosestNodes n key 1) as [| first rest] eqn:Hres.
  - destruct (concat (Kademlia.buckets n)); [contradiction | discriminate].
  - assert (rest = []) as ->.
    { destruct rest; [reflexivity |]. cbn [length] in Hlen. lia. }
    exists first. split; [reflexivity |].
    apply (closest_members n key 1 first).
    change (Z.of_nat 1) with 1. rewrite Hres. now left.
Qed.

Lemma findCircuitNodesFrom_empty (rnd : Random) (self : AnonymousP2PNode)
  (i remaining : nat) :
  concat (Kademlia.buckets (dht self)) = [] ->
  findCircuitNodesFrom rnd self i remaining = [].
Proof.
  intros Hempty. revert i. induction remaining as [| r IH]; intros i;
    [reflexivity |].
  cbn [findCircuitNodesFrom]. now rewrite lookup_one_empty, IH.
Qed.

Lemma findCircuitNodesFrom_some (rnd : Random) (self : AnonymousP2PNode)
  (i remaining : nat) :
  concat (Kademlia.buckets (dht self)) <> [] ->
  length (findCircuitNodesFrom rnd self i remaining) = remaining /\
  forall x, In x (findCircuitNodesFrom rnd self i remaining) ->
    exists c, In c (concat (Kademlia.buckets (dht self))) /\
              Kademlia.id c = x.
Proof.
  intros Hsome. revert i. induction remaining as [| r IH]; intros i.
  - split; [reflexivity | intros x []].
  - cbn [findCircuitNodesFrom].
    destruct (lookup_one_some (dht self) (lookupKey rnd i) Hsome)
      as (first & -> & Hin).
    destruct (IH (S i)) as [Hlen Hmem]. split; [cbn; now rewrite Hlen |].
    intros x [<- | Hx]; [eauto | now apply Hmem].
Qed.

(** X21.  With an empty routing table [findCircuitNodes(count)] returns
    no identifier; with a non-empty one it returns exactly [count], each
    the identifier of a contact of the table, and repeats are not
    excluded: a table with a single contact yields that contact for every
    hop. *)
Theorem findCircuitNodes_count (rnd : Random) (self : AnonymousP2PNode)
  (count : nat) :
  (concat (Kademlia.buckets (dht self)) = [] ->
   findCircuitNodes rnd self count = []) /\
  (concat (Kademlia.buckets (dht self)) <> [] ->
   length (findCircuitNodes rnd self count) = count /\
   forall x, In x (findCircuitNodes rnd self count) ->
     exists c, In c (concat (Kademlia.buckets (dht self))) /\
               Kademlia.id c = x) /\
  (forall c, concat (Kademlia.buckets (dht self)) = [c] ->
     findCircuitNodes rnd self count = repeat (Kademlia.id c) count).
Proof.
  unfold findCircuitNodes. split; [| split].
  - now apply findCircuitNodesFrom_empty.
  - now apply findCircuitNodesFrom_some.
  - intros c Hone.
    assert (Hsome : concat (Kademlia.buckets (dht self)) <> [])
      by (rewrite Hone; discriminate).
    destruct (findCircuitNodesFrom_some rnd self 0 count Hsome)
      as [Hlen Hmem].
    rewrite <- Hlen at 2. apply Forall_eq_repeat.
    apply List.Forall_forall. intros x Hx.
    destruct (Hmem x Hx) as (c' & Hc' & <-).
    rewrite Hone in Hc'. destruct Hc' as [<- | []]. reflexivity.
Qed.

Lemma findCircuitNodes_count_witness :
  findCircuitNodes Sample.toyRandom Sample.p2pEmpty 3 = [] /\
  length (findCircuitNodes Sample.toyRandom Sample.p2pSeen 3) = 3%nat /\
  findCircuitNodes Sample.toyRandom Sample2.p2pOne 3
  = [Sample.idA; Sample.idA; Sample.idA].
Proof.
  destruct (findCircuitNodes_count Sample.toyRandom Sample.p2pEmpty 3)
    as (Hempty & _ & _).
  destruct (findCircuitNodes_count Sample.toyRandom Sample.p2pSeen 3)
    as (_ & Hsome & _).
  destruct (findCircuitNodes_count Sample.toyRandom Sample2.p2pOne 3)
    as (_ & _ & Hone).
  split; [| split].
  - apply Hempty. vm_compute. reflexivity.
  - apply Hsome. vm_compute. discriminate.
  - apply (Hone (Kademlia.mkContact Sample.idA "10.0.0.1:3000" 1000)).
    vm_compute. reflexivity.
Defined.

(** ** [sendAnonymousMessage] *)

Section WithRSA.

Variable publicEncrypt : string -> string -> option string.
Variable rnd : Random.
Variable connects : string -> bool.

Hypothesis ciphertext_size :
  forall key data encrypted,
    publicEncrypt key data = Some encrypted ->
    String.length encrypted = 256%nat.
Hypothesis plaintext_limit :
  forall key data,
    (256 < String.length data)%nat -> publicEncrypt key data = None.

Lemma wrapFrom_two_hops (packet : JsValue) (i : nat) (h0 h1 : Hop)
  (rest : list Hop) :
  exists e, wrapFrom publicEncrypt rnd packet i (h0 :: h1 :: rest) = Throw e.
Proof.
  cbn [wrapFrom].
  destruct (wrapFrom publicEncrypt rnd packet (S (S i)) rest)
    as [inner | e]; cbn [bind]; [| eauto].
  destruct (encryptLayer_shape publicEncrypt ciphertext_size inner
              (publicKey h1) (layerTag rnd (S i)))
    as [[e ->] | (encrypted & Hsize & ->)]; cbn [bind]; [eauto |].
  now apply (encryptLayer_nested publicEncrypt plaintext_limit).
Qed.

Lemma sendAnonymousMessage_steps (self : AnonymousP2PNode)
  (message : JsValue) (target : string) (now : Z) :
  sendAnonymousMessage publicEncrypt rnd connects self message target now
  = let circuit := resolveFrom rnd 0 (findCircuitNodes rnd self 3) in
    let self1 :=
      set_onionRouter self
        (fst (buildCircuit rnd (onionRouter self)
                (findCircuitNodes rnd self 3))) in
    match createOnionPacket publicEncrypt rnd message circuit now with
    | Throw e => (self1, Throw e, [])
    | Normal packet =>
        match circuit !! 0%nat with
        | None =>
            (self1,
             Throw (TypeError "Cannot read properties of undefined"), [])
        | Some firstHop =>
            let '(r, effects) :=
              sendToNode connects (address firstHop)
                (JObj [("type", JStr "ONION_PACKET"); ("packet", packet);
                       ("circuitId", JStr (circuitIdDraw rnd))]) in
            (self1, r, effects)
        end
    end.
Proof.
  unfold sendAnonymousMessage, buildCircuit. cbv zeta.
  cbn [fst snd circuits]. now rewrite lookup_insert_eq.
Qed.

(** X22.  With RSA-2048 keys [sendAnonymousMessage] never puts anything
    on the wire.  With an empty routing table the circuit has no hop and
    the call throws on [circuit[0].address]; with any other table the
    circuit has three hops and [createOnionPacket] throws.  In both cases
    the promise rejects and no connection is opened. *)
Theorem sendAnonymousMessage_never_sends (self : AnonymousP2PNode)
  (message : JsValue) (target : string) (now : Z) :
  snd (sendAnonymousMessage publicEncrypt rnd connects self message target
         now) = [] /\
  exists e,
    snd (fst (sendAnonymousMessage publicEncrypt rnd connects self message
                target now)) = Throw e.
Proof.
  rewrite sendAnonymousMessage_steps. cbv zeta.
  pose proof (findCircuitNodesFrom_empty rnd self 0 3) as Hempty.
  pose proof (findCircuitNodesFrom_some rnd self 0 3) as Hsome.
  change (findCircuitNodesFrom rnd self 0 3)
    with (findCircuitNodes rnd self 3) in Hempty, Hsome.
  destruct (concat (Kademlia.buckets (dht self))) as [| c cs] eqn:Hall.
  - rewrite (Hempty eq_refl). cbn. eauto.
  - destruct (Hsome ltac:(discriminate)) as [Hlen _].
    pose proof (resolveFrom_ids rnd 0 (findCircuitNodes rnd self 3)) as Hids.
    assert (Hhops : length (resolveFrom rnd 0 (findCircuitNodes rnd self 3))
                    = 3%nat)
      by (rewrite <- Hlen, <- Hids at 2; now rewrite length_map).
    destruct (resolveFrom rnd 0 (findCircuitNodes rnd self 3))
      as [| h0 [| h1 rest]]; try discriminate Hhops.
    unfold createOnionPacket. cbv zeta.
    destruct (wrapFrom_two_hops
                (JObj [("payload", message); ("timestamp", JNum now)])
                0 h0 h1 rest) as [e ->].
    cbn. eauto.
Qed.

End WithRSA.

Lemma sendAnonymousMessage_never_sends_witness :
  snd (sendAnonymousMessage Sample.toyEncrypt Sample.toyRandom
         Sample.allConnect Sample.p2pSeen (JStr "hello") "target-pseudonym"
         1700000000000) = [].
Proof.
  apply (sendAnonymousMessage_never_sends Sample.toyEncrypt Sample.toyRandom
           Sample.allConnect toyEncrypt_size toyEncrypt_limit).
Defined.

(** ** The inbound queue and the peer set *)

(** X23.  Every chunk that parses is put at the end of [messageQueue], in
    arrival order, with the peer it came from and the time; chunks that do
    not parse are dropped.  [handleIncomingMessage] never takes anything
    off the queue and changes nothing else of the node. *)
Theorem messageQueue_grows (JSON_parse : string -> option JsValue)
  (self : AnonymousP2PNode) (chunks : list (string * string * Z)) :
  messageQueue (receiveAll JSON_parse self chunks)
  = messageQueue self ++
    omap (fun chunk : string * string * Z =>
            let '(data, peerId, now) := chunk in
            (fun message => (message, peerId, now)) <$> JSON_parse data)
         chunks /\
  peers (receiveAll JSON_parse self chunks) = peers self /\
  dht (receiveAll JSON_parse self chunks) = dht self /\
  onionRouter (receiveAll JSON_parse self chunks) = onionRouter self.
Proof.
  revert self. induction chunks as [| [[data peerId] now] chunks IH];
    intros self.
  - cbn. now rewrite app_nil_r.
  - change (receiveAll JSON_parse self ((data, peerId, now) :: chunks))
      with (receiveAll JSON_parse
              (fst (handleIncomingMessage JSON_parse self data peerId now))
              chunks).
    destruct (IH (fst (handleIncomingMessage JSON_parse self data peerId now)))
      as (Hq & Hp & Hd & Hr).
    rewrite Hq, Hp, Hd, Hr. unfold handleIncomingMessage. cbn [omap list_omap].
    destruct (JSON_parse data) as [message |]; cbn [fst fmap option_fmap
                                                     option_map].
    + cbn [messageQueue peers dht onionRouter set_messageQueue].
      now rewrite <- app_assoc.
    + auto.
Qed.

(** X24.  A connection accepted under a fresh peer id can be written to
    with [sendToPeer], which writes the frame once on its socket; when the
    connection closes the peer set is what it was before, and [sendToPeer]
    to that id writes nothing.  If the id drawn is already in use, the new
    socket takes the entry of the old one, and the close of either
    connection removes it. *)
Theorem peers_accept_close (self : AnonymousP2PNode)
  (peerId : string) (socket other : nat) (message : JsValue) :
  sendToPeer (handlePeerConnection self peerId socket) peerId message
    = [mkPeerWrite socket message] /\
  sendToPeer (onClose (handlePeerConnection self peerId socket) peerId)
    peerId message = [] /\
  (peers self !! peerId = None ->
   peers (onClose (handlePeerConnection self peerId socket) peerId)
   = peers self) /\
  sendToPeer
    (onClose
       (handlePeerConnection (handlePeerConnection self peerId other)
          peerId socket) peerId) peerId message = [].
Proof.
  unfold sendToPeer, onClose, handlePeerConnection.
  cbn [peers set_peers]. repeat split.
  - now rewrite lookup_insert_eq.
  - now rewrite lookup_delete_eq.
  - intros Hfresh. now apply delete_insert_id.
  - now rewrite lookup_delete_eq.
Qed.

Lemma peers_accept_close_witness :
  peers (onClose (handlePeerConnection Sample.p2pSeen "c0ffee0000000001" 7)
           "c0ffee0000000001")
  = peers Sample.p2pSeen.
Proof.
  destruct (peers_accept_close Sample.p2pSeen "c0ffee0000000001" 7 8 JNull)
    as (_ & _ & Hfresh & _).
  apply Hfresh. reflexivity.
Defined.

End CircuitFacts.

(* ================================================================== *)
(** * The target of an anonymous send *)
(* ================================================================== *)

Module TargetFacts.
Import Js Onion P2P.
Import OnionFacts P2PFacts LookupFacts CircuitFacts.



Section WithRSA.

Variable publicEncrypt : string -> string -> option string.
Variable rnd : Random.
Variable connects : string -> bool.

(** RSA with a 2048-bit modulus, the keys [getNodeInfo] generates. *)
Hypothesis ciphertext_size :
  forall key data encrypted,
    publicEncrypt key data = Some encrypted ->
    String.length encrypted = 256%nat.
Hypothesis plaintext_limit :
  forall key data,
    (256 < String.length data)%nat -> publicEncrypt key data = None.


End WithRSA.



End TargetFacts.
